(** * AutoClick: recorder/player, marker click-loop and hotkey capture

    A shallow embedding of [AC.py].  The background workers ([play_loop] of
    [RecorderPlayer.start_playback] and [worker] of [ClickRunner.start]) are
    functions that return the sequence of effects they perform: reads of the
    cancellation flag, suspensions, injected output actions and log lines.
    What the other threads do while a worker runs reaches the worker only
    through the shared objects it reads; that is modelled by giving the
    worker, for its k-th read of the flag, the state of those objects at
    that moment.

    Python [float]s are modelled as exact rationals ([Q]); rounding, [nan]
    and [inf] are outside the model.  Python [int]s are [Z]. *)

From Stdlib Require Import ZArith QArith String List Lia.
From stdpp Require Import base gmap strings list.

Open Scope Z_scope.

(** ** Python arithmetic on floats *)

Definition Qltb (a b : Q) : bool := negb (Qle_bool b a).

(** [max(a, b)]: the first argument unless the second is greater. *)
Definition py_max (a b : Q) : Q := if Qltb a b then b else a.

(** [min(a, b)]: the first argument unless the second is smaller. *)
Definition py_min (a b : Q) : Q := if Qltb b a then b else a.

(** ** Effects of the background workers *)

Inductive MouseButton := ButtonLeft | ButtonRight.

(** Calls on the output-injection controllers ([pynput]). *)
Inductive Out :=
  | SetPosition (x y : option Z)        (* _mouse_ctrl.position = (x, y) *)
  | ClickButton (b : MouseButton) (count : Z)  (* _mouse_ctrl.click(b, count) *)
  | PressButton (b : MouseButton)       (* _mouse_ctrl.press(b) *)
  | ReleaseButton (b : MouseButton)     (* _mouse_ctrl.release(b) *)
  | Scroll (dx dy : option Z)           (* _mouse_ctrl.scroll(dx, dy) *)
  | PressKey (k : string)               (* self._press_key(k) *)
  | ReleaseKey (k : string).            (* self._release_key(k) *)

(** The [time.sleep] call sites. *)
Inductive SleepSite := DelaySleep | EventWait | GapSleep | MarkerWait.

(** Log lines and returned messages; the Chinese text is in the comments. *)
Inductive Msg :=
  | MsgNoData                           (* "没有录制数据" *)
  | MsgAlreadyPlaying                   (* "回放已在进行中" *)
  | MsgPlaybackStarted                  (* "开始回放" *)
  | MsgPlaybackDelay (d : Q)            (* "延迟 {delay} 秒开始回放" *)
  | MsgLoopBegin (i : nat)              (* "回放 - 第 {i} 轮开始" *)
  | MsgLoopEnd (i : nat)                (* "回放 - 第 {i} 轮结束" *)
  | MsgPlaybackDone                     (* "回放完成" *)
  | MsgPlaybackStopped                  (* "停止回放" *)
  | MsgLoaded (n : nat)                 (* "从 {path} 加载录制，共 {n} 个事件" *)
  | MsgNoMarkers                        (* "没有标记坐标" *)
  | MsgStartDelay (d : Q)               (* "启动延迟 {d:.2f}s 后开始" *)
  | MsgRoundBegin (i : nat)             (* "开始第 {i} 轮" *)
  | MsgClicked (id : Z) (b : string) (x y : Z)  (* "点击 #{id} (..) @ (x, y)" *)
  | MsgRoundEnd (i : nat)               (* "结束第 {i} 轮" *)
  | MsgClickDone                        (* "连点完成" *)
  | MsgMarkerAdded (id : Z)             (* "添加标记 #{id}" *)
  | MsgMarkersCleared                   (* "清空标记" *)
  | MsgMarkerDeleted (id : Z)           (* "删除标记 #{id}" *)
  | MsgConfigLoaded                     (* "加载配置 {path}" *)
  | MsgCaptureBegin (action : string)   (* "正在设置快捷键：{action}，…" *)
  | MsgCaptureConflict (combo : string) (* "快捷键冲突：{combo} 已被其他页面/动作占用，请重试。" *)
  | MsgCaptureSet (action combo : string) (* "已设置 {action} 热键为：{combo}" *)
  | MsgCaptureCancelled                 (* "已取消设置热键。" *)
  | MsgCaptureBusy.                     (* messagebox: "已在设置其他快捷键，请先完成。" *)

Inductive Effect :=
  | Observe (b : bool)                  (* _stop_event.is_set() returned b *)
  | Sleep (site : SleepSite) (d : Q)    (* time.sleep(d) *)
  | Do (o : Out)
  | Log (m : Msg)
  | OnEnd.                              (* the finally block: flag reset, on_end() *)

(** How a worker's thread function ends. *)
Inductive Exit :=
  | Finished      (* ran off the end of the while loop *)
  | Cancelled     (* [return] on a set flag *)
  | Raised        (* an exception escaped the loop *)
  | OutOfFuel.    (* the model stopped unrolling; the run goes on *)

(** Control flow out of a [for] loop body. *)
Inductive Flow := Continue | Break | Raise.

Definition is_output (e : Effect) : bool :=
  match e with Do _ => true | _ => false end.

(** An effect that may follow an observed cancellation: the end of the
    round or of the run, or the flag read as set again.  No injected
    action, no suspension, no new round. *)
Definition is_silent (e : Effect) : bool :=
  match e with
  | Observe true => true
  | Log (MsgLoopEnd _) | Log (MsgRoundEnd _) => true
  | Log MsgPlaybackDone | Log MsgClickDone => true
  | OnEnd => true
  | _ => false
  end.

Definition silent (tr : list Effect) : bool := forallb is_silent tr.

(** No set flag has been seen in [tr]. *)
Definition clean (tr : list Effect) : bool :=
  forallb (fun e => match e with Observe true => false | _ => true end) tr.

(** After the first read of a set flag, only silent effects follow. *)
Fixpoint quiet (tr : list Effect) : bool :=
  match tr with
  | [] => true
  | Observe true :: rest => silent rest
  | _ :: rest => quiet rest
  end.

(** [loop_index < total_loops] of both workers, with
    [total_loops = loops if loops != -1 else float('inf')]. *)
Definition more_loops (loops : Z) (loop_index : nat) : bool :=
  if loops =? -1 then true else Z.of_nat loop_index <? loops.

(** ** Recorder / player *)

Module Player.

(** [@dataclass class Event]: every field but [t] and [type] defaults to
    [None]. *)
Record Event := {
  ev_t : Q;
  ev_type : string;
  ev_x : option Z;
  ev_y : option Z;
  ev_dx : option Z;
  ev_dy : option Z;
  ev_button : option string;
  ev_key : option string
}.

Record PlayTask := {
  task_events : list Event;   (* events_copy *)
  task_speed : Q;
  task_loops : Z;
  task_gap : Q;
  task_delay : Q
}.

Record RecorderPlayer := {
  recording : list Event;     (* self.recording.events *)
  stop_play_event : bool;     (* self._stop_play_event *)
  is_playing : bool;          (* self._is_playing *)
  player_log : list Msg;      (* lines given to self.log *)
  threads : list PlayTask     (* threading.Thread(target=play_loop).start() *)
}.

(** [RecorderPlayer.start_playback]. *)
Definition start_playback (speed : Q) (loops : Z) (gap delay : Q)
    (p : RecorderPlayer) : (bool * Msg) * RecorderPlayer :=
  match recording p with
  | [] => ((false, MsgNoData), p)
  | _ :: _ =>
    if is_playing p then ((false, MsgAlreadyPlaying), p)
    else
      let events_copy := recording p in
      ((true, MsgPlaybackStarted),
       {| recording := recording p;
          stop_play_event := false;
          is_playing := true;
          player_log := player_log p ++ [MsgPlaybackStarted];
          threads := threads p ++
            [{| task_events := events_copy; task_speed := speed;
                task_loops := loops; task_gap := gap; task_delay := delay |}] |})
  end.

(** [RecorderPlayer.stop_playback]. *)
Definition stop_playback (p : RecorderPlayer) : (bool * Msg) * RecorderPlayer :=
  ((true, MsgPlaybackStopped),
   {| recording := recording p; stop_play_event := true;
      is_playing := is_playing p; player_log := player_log p;
      threads := threads p |}).

(** [mouse.Button.left if "left" in ev.button else mouse.Button.right] *)
Definition button_of (b : string) : MouseButton :=
  match String.index 0 "left" b with
  | Some _ => ButtonLeft
  | None => ButtonRight
  end.

(** The [if ev.type == ...] chain of [play_loop].  [None]: the branch raises
    ([in] on a missing button, [startswith] on a missing key). *)
Definition apply_event (ev : Event) : option (list Out) :=
  if String.eqb (ev_type ev) "mouse_move" then
    Some [SetPosition (ev_x ev) (ev_y ev)]
  else if String.eqb (ev_type ev) "mouse_down" then
    match ev_button ev with
    | Some b => Some [PressButton (button_of b)]
    | None => None
    end
  else if String.eqb (ev_type ev) "mouse_up" then
    match ev_button ev with
    | Some b => Some [ReleaseButton (button_of b)]
    | None => None
    end
  else if String.eqb (ev_type ev) "mouse_scroll" then
    Some [SetPosition (ev_x ev) (ev_y ev); Scroll (ev_dx ev) (ev_dy ev)]
  else if String.eqb (ev_type ev) "key_down" then
    match ev_key ev with
    | Some k => Some [PressKey k]
    | None => None
    end
  else if String.eqb (ev_type ev) "key_up" then
    match ev_key ev with
    | Some k => Some [ReleaseKey k]
    | None => None
    end
  else Some [].

(** The [1e-9] of [max(speed, 1e-9)]. *)
Definition speed_floor : Q := 1 # 1000000000.

(** [wait_time = (ev.t - prev_t) / max(speed, 1e-9)] *)
Definition wait_time (t prev_t speed : Q) : Q :=
  ((t - prev_t) / py_max speed speed_floor)%Q.

(** [for ev in events_copy: ...].  [flag k] is what the k-th call of
    [_stop_play_event.is_set()] returns; [tick] counts the calls made.
    [time.sleep] raises [ValueError] on a negative length. *)
Fixpoint play_events (flag : nat -> bool) (speed : Q) (evs : list Event)
    (prev_t : Q) (tick : nat) : Flow * nat * list Effect :=
  match evs with
  | [] => (Continue, tick, [])
  | ev :: rest =>
    if flag tick then (Break, S tick, [Observe true])
    else
      let w := wait_time (ev_t ev) prev_t speed in
      if Qltb w 0 then (Raise, S tick, [Observe false])
      else
        match apply_event ev with
        | None => (Raise, S tick, [Observe false; Sleep EventWait w])
        | Some outs =>
          let '(fl, tk, tr) := play_events flag speed rest (ev_t ev) (S tick) in
          (fl, tk, Observe false :: Sleep EventWait w :: map Do outs ++ tr)
        end
  end.

(** [while loop_index < total_loops and not self._stop_play_event.is_set()].
    [fuel] bounds the number of rounds unrolled. *)
Fixpoint play_rounds (fuel : nat) (flag : nat -> bool) (speed : Q) (loops : Z)
    (gap : Q) (evs : list Event) (loop_index tick : nat)
    : Exit * nat * list Effect :=
  match fuel with
  | O => (OutOfFuel, tick, [])
  | S fuel' =>
    if negb (more_loops loops loop_index) then (Finished, tick, [])
    else if flag tick then (Finished, S tick, [Observe true])
    else
      let loop_index := S loop_index in
      let '(fl, tk, tr) := play_events flag speed evs 0 (S tick) in
      match fl with
      | Break => (Cancelled, tk, Observe false :: Log (MsgLoopBegin loop_index) :: tr)
      | Raise => (Raised, tk, Observe false :: Log (MsgLoopBegin loop_index) :: tr)
      | Continue =>
        let gap_part := if Qltb 0 gap then [Sleep GapSleep gap] else [] in
        let '(ex, tk', tr') :=
          play_rounds fuel' flag speed loops gap evs loop_index tk in
        (ex, tk',
         Observe false :: Log (MsgLoopBegin loop_index) :: tr
           ++ Log (MsgLoopEnd loop_index) :: gap_part ++ tr')
      end
  end.

(** The thread function [play_loop] with its [try ... finally]. *)
Definition play_loop (fuel : nat) (flag : nat -> bool) (speed : Q) (loops : Z)
    (gap delay : Q) (events_copy : list Event) : Exit * list Effect :=
  let delay_part :=
    if Qltb 0 delay then [Log (MsgPlaybackDelay delay); Sleep DelaySleep delay]
    else [] in
  let '(ex, _, tr) := play_rounds fuel flag speed loops gap events_copy 0 0 in
  let tail :=
    match ex with
    | Finished => [Log MsgPlaybackDone; OnEnd]
    | Cancelled | Raised => [OnEnd]
    | OutOfFuel => []
    end in
  (ex, delay_part ++ tr ++ tail).

Definition run_task (fuel : nat) (flag : nat -> bool) (t : PlayTask)
    : Exit * list Effect :=
  play_loop fuel flag (task_speed t) (task_loops t) (task_gap t)
    (task_delay t) (task_events t).

(** One element of the JSON array read by [load_from_file].  A field is
    [None] when the key is absent or [null]; for [t] and [type] only
    absence is modelled (the [Event] constructor then raises [TypeError]). *)
Inductive EventEntry :=
  | EventDict (t : option Q) (type : option string) (x y dx dy : option Z)
      (button key : option string) (unknown_key : bool)
  | EventOther.      (* not a JSON object *)

(** The [Event] constructor applied to the keywords of [e]. *)
Definition make_event (e : EventEntry) : option Event :=
  match e with
  | EventDict (Some t) (Some ty) x y dx dy b k false =>
    Some {| ev_t := t; ev_type := ty; ev_x := x; ev_y := y;
            ev_dx := dx; ev_dy := dy; ev_button := b; ev_key := k |}
  | _ => None
  end.

(** The list comprehension over [data]: the first failing element raises. *)
Fixpoint make_events (data : list EventEntry) : option (list Event) :=
  match data with
  | [] => Some []
  | e :: rest =>
    match make_event e with
    | None => None
    | Some ev =>
      match make_events rest with
      | None => None
      | Some evs => Some (ev :: evs)
      end
    end
  end.

(** [RecorderPlayer.load_from_file], from the parsed JSON document on.
    [inr]: the exception escapes, with the state it leaves. *)
Definition load_from_file (data : list EventEntry) (p : RecorderPlayer)
    : RecorderPlayer + RecorderPlayer :=
  match make_events data with
  | None => inr p
  | Some evs =>
    inl {| recording := evs; stop_play_event := stop_play_event p;
           is_playing := is_playing p;
           player_log := player_log p ++ [MsgLoaded (length evs)];
           threads := threads p |}
  end.

End Player.

(** ** State that both page classes declare alike *)

Record PageCore := {
  hotkeys : gmap string string;      (* self.hotkeys: action name -> chord *)
  capture_action : option string;    (* self._capture_action *)
  cap_listener : bool;               (* self._cap_listener is a started listener *)
  cap_pressed : gset string;         (* self._cap_pressed *)
  edit_buttons_disabled : bool;      (* state of self._hotkey_edit_buttons *)
  log_text : list Msg                (* lines written by self.log *)
}.

Definition set_hotkeys (h : gmap string string) (c : PageCore) : PageCore :=
  {| hotkeys := h; capture_action := capture_action c;
     cap_listener := cap_listener c; cap_pressed := cap_pressed c;
     edit_buttons_disabled := edit_buttons_disabled c; log_text := log_text c |}.

Definition set_pressed (s : gset string) (c : PageCore) : PageCore :=
  {| hotkeys := hotkeys c; capture_action := capture_action c;
     cap_listener := cap_listener c; cap_pressed := s;
     edit_buttons_disabled := edit_buttons_disabled c; log_text := log_text c |}.

Definition add_log (ms : list Msg) (c : PageCore) : PageCore :=
  {| hotkeys := hotkeys c; capture_action := capture_action c;
     cap_listener := cap_listener c; cap_pressed := cap_pressed c;
     edit_buttons_disabled := edit_buttons_disabled c;
     log_text := log_text c ++ ms |}.

(** [seq[i]] positions as Python resolves them: negative indices count from
    the end, anything else out of range raises [IndexError] ([None]). *)
Definition py_index (i : Z) (len : nat) : option nat :=
  if (0 <=? i) && (i <? Z.of_nat len) then Some (Z.to_nat i)
  else if (- Z.of_nat len <=? i) && (i <? 0) then Some (Z.to_nat (Z.of_nat len + i))
  else None.

(** [int(q)] on a float: truncation toward zero. *)
Definition py_int (q : Q) : Z := Z.quot (Qnum q) (Zpos (Qden q)).

(** A value read from a JSON object with [d.get(key, default)] and then
    converted with [int] or [float]. *)
Inductive Field (A : Type) :=
  | Absent             (* no such key: the default is used *)
  | Unusable           (* a value on which the conversion raises *)
  | Given (a : A).     (* a value that converts to [a] *)
Arguments Absent {A}.
Arguments Unusable {A}.
Arguments Given {A} a.

(** ** Marker click-loop *)

Module Clicker.

(** [@dataclass class Marker] *)
Record Marker := {
  m_id : Z;
  m_x : Z;
  m_y : Z;
  m_button : string;
  m_interval : Q
}.

Definition set_id (v : Z) (m : Marker) : Marker :=
  {| m_id := v; m_x := m_x m; m_y := m_y m; m_button := m_button m;
     m_interval := m_interval m |}.
Definition set_x (v : Z) (m : Marker) : Marker :=
  {| m_id := m_id m; m_x := v; m_y := m_y m; m_button := m_button m;
     m_interval := m_interval m |}.
Definition set_y (v : Z) (m : Marker) : Marker :=
  {| m_id := m_id m; m_x := m_x m; m_y := v; m_button := m_button m;
     m_interval := m_interval m |}.
Definition set_button (v : string) (m : Marker) : Marker :=
  {| m_id := m_id m; m_x := m_x m; m_y := m_y m; m_button := v;
     m_interval := m_interval m |}.
Definition set_interval (v : Q) (m : Marker) : Marker :=
  {| m_id := m_id m; m_x := m_x m; m_y := m_y m; m_button := m_button m;
     m_interval := v |}.

(** [@dataclass class ClickConfig] *)
Record ClickConfig := { cfg_loops : Z; cfg_delay : Q }.

(** A started worker thread: the list object it was given (a list of
    references to [Marker] objects) and its configuration. *)
Record ClickTask := { task_markers : list nat; task_cfg : ClickConfig }.

Record ClickRunner := {
  stop_event : bool;                (* self._stop_event *)
  is_running : bool;                (* self._is_running *)
  runner_threads : list ClickTask   (* threading.Thread(target=worker).start() *)
}.

(** [ClickRunner.stop] *)
Definition runner_stop (r : ClickRunner) : ClickRunner :=
  {| stop_event := true; is_running := is_running r;
     runner_threads := runner_threads r |}.

(** [ClickRunner.start]: the returned boolean, the lines passed to
    [self.log], and the runner afterwards. *)
Definition runner_start (markers : list nat) (cfg : ClickConfig)
    (r : ClickRunner) : bool * list Msg * ClickRunner :=
  match markers with
  | [] => (false, [MsgNoMarkers], r)
  | _ :: _ =>
    if is_running r then (false, [], r)
    else
      (true, [],
       {| stop_event := false; is_running := true;
          runner_threads := runner_threads r ++
            [{| task_markers := markers; task_cfg := cfg |}] |})
  end.

(** What the worker reads from objects it shares with the main thread: the
    stop flag and the [Marker] objects, stored by reference. *)
Record Shared := { sh_stop : bool; sh_heap : gmap nat Marker }.

Definition interval_floor : Q := 1 # 100.
Definition interval_ceiling : Q := 5.

(** [max(0.01, min(5.0, float(m.interval)))] *)
Definition click_wait (interval : Q) : Q :=
  py_max interval_floor (py_min interval_ceiling interval).

(** [MouseButton.left if m.button == "left" else MouseButton.right] *)
Definition marker_button (b : string) : MouseButton :=
  if String.eqb b "left" then ButtonLeft else ButtonRight.

(** [for m in markers: ...] of [worker].  [env k] is the shared state at
    the k-th call of [_stop_event.is_set()]; the fields of [m] are read
    from it. *)
Fixpoint click_markers (env : nat -> Shared) (ms : list nat) (tick : nat)
    : Flow * nat * list Effect :=
  match ms with
  | [] => (Continue, tick, [])
  | l :: rest =>
    if sh_stop (env tick) then (Break, S tick, [Observe true])
    else
      match sh_heap (env tick) !! l with
      | None => (Raise, S tick, [Observe false])
      | Some m =>
        let '(fl, tk, tr) := click_markers env rest (S tick) in
        (fl, tk,
         Observe false
           :: Do (SetPosition (Some (m_x m)) (Some (m_y m)))
           :: Do (ClickButton (marker_button (m_button m)) 1)
           :: Log (MsgClicked (m_id m) (m_button m) (m_x m) (m_y m))
           :: Sleep MarkerWait (click_wait (m_interval m))
           :: tr)
      end
  end.

(** [while loop_idx < total_loops and not self._stop_event.is_set()]; a
    [break] out of the [for] loop falls through to the end of the round. *)
Fixpoint click_rounds (fuel : nat) (env : nat -> Shared) (loops : Z)
    (ms : list nat) (loop_idx tick : nat) : Exit * nat * list Effect :=
  match fuel with
  | O => (OutOfFuel, tick, [])
  | S fuel' =>
    if negb (more_loops loops loop_idx) then (Finished, tick, [])
    else if sh_stop (env tick) then (Finished, S tick, [Observe true])
    else
      let loop_idx := S loop_idx in
      let '(fl, tk, tr) := click_markers env ms (S tick) in
      match fl with
      | Raise => (Raised, tk, Observe false :: Log (MsgRoundBegin loop_idx) :: tr)
      | Continue | Break =>
        let '(ex, tk', tr') := click_rounds fuel' env loops ms loop_idx tk in
        (ex, tk',
         Observe false :: Log (MsgRoundBegin loop_idx) :: tr
           ++ Log (MsgRoundEnd loop_idx) :: tr')
      end
  end.

(** The thread function [worker] with its [try ... finally]. *)
Definition worker (fuel : nat) (env : nat -> Shared) (cfg : ClickConfig)
    (markers : list nat) : Exit * list Effect :=
  let delay_part :=
    if Qltb 0 (cfg_delay cfg)
    then [Log (MsgStartDelay (cfg_delay cfg));
          Sleep DelaySleep (py_max 0 (cfg_delay cfg))]
    else [] in
  let '(ex, _, tr) := click_rounds fuel env (cfg_loops cfg) markers 0 0 in
  let tail :=
    match ex with
    | Finished => [Log MsgClickDone; OnEnd]
    | Cancelled | Raised => [OnEnd]
    | OutOfFuel => []
    end in
  (ex, delay_part ++ tr ++ tail).

(** *** The page that owns the markers *)

Record ClickerPage := {
  core : PageCore;
  heap : gmap nat Marker;      (* the Marker objects, by identity *)
  next_loc : nat;              (* identity of the next object created *)
  markers : list nat;          (* self.markers: references into [heap] *)
  var_loops : Z;
  var_delay : Q;
  new_marker_pos : Z * Z;      (* where add_marker puts a marker (window geometry) *)
  runner : ClickRunner;
  hotkeys_changed : nat        (* calls of self.on_hotkeys_changed *)
}.

Definition set_core (c : PageCore) (p : ClickerPage) : ClickerPage :=
  {| core := c; heap := heap p; next_loc := next_loc p; markers := markers p;
     var_loops := var_loops p; var_delay := var_delay p;
     new_marker_pos := new_marker_pos p; runner := runner p;
     hotkeys_changed := hotkeys_changed p |}.

Definition set_heap (h : gmap nat Marker) (p : ClickerPage) : ClickerPage :=
  {| core := core p; heap := h; next_loc := next_loc p; markers := markers p;
     var_loops := var_loops p; var_delay := var_delay p;
     new_marker_pos := new_marker_pos p; runner := runner p;
     hotkeys_changed := hotkeys_changed p |}.

Definition set_markers (ms : list nat) (p : ClickerPage) : ClickerPage :=
  {| core := core p; heap := heap p; next_loc := next_loc p; markers := ms;
     var_loops := var_loops p; var_delay := var_delay p;
     new_marker_pos := new_marker_pos p; runner := runner p;
     hotkeys_changed := hotkeys_changed p |}.

Definition set_vars (loops : Z) (delay : Q) (p : ClickerPage) : ClickerPage :=
  {| core := core p; heap := heap p; next_loc := next_loc p;
     markers := markers p; var_loops := loops; var_delay := delay;
     new_marker_pos := new_marker_pos p; runner := runner p;
     hotkeys_changed := hotkeys_changed p |}.

Definition set_runner (r : ClickRunner) (p : ClickerPage) : ClickerPage :=
  {| core := core p; heap := heap p; next_loc := next_loc p;
     markers := markers p; var_loops := var_loops p; var_delay := var_delay p;
     new_marker_pos := new_marker_pos p; runner := r;
     hotkeys_changed := hotkeys_changed p |}.

Definition page_log (ms : list Msg) (p : ClickerPage) : ClickerPage :=
  set_core (add_log ms (core p)) p.

(** [self._notify_hotkeys_changed()] *)
Definition notify_hotkeys_changed (p : ClickerPage) : ClickerPage :=
  {| core := core p; heap := heap p; next_loc := next_loc p;
     markers := markers p; var_loops := var_loops p; var_delay := var_delay p;
     new_marker_pos := new_marker_pos p; runner := runner p;
     hotkeys_changed := S (hotkeys_changed p) |}.

(** [for idx, m in enumerate(self.markers, start=1): m.id = idx] *)
Fixpoint renumber (h : gmap nat Marker) (ms : list nat) (idx : Z)
    : gmap nat Marker :=
  match ms with
  | [] => h
  | l :: rest => renumber (alter (set_id idx) l h) rest (idx + 1)
  end.

(** [ClickerPage._refresh], as far as it touches the markers. *)
Definition refresh (p : ClickerPage) : ClickerPage :=
  set_heap (renumber (heap p) (markers p) 1) p.

(** [ClickerPage.add_marker] *)
Definition add_marker (p : ClickerPage) : ClickerPage :=
  let mid := Z.of_nat (length (markers p)) + 1 in
  let m := {| m_id := mid; m_x := fst (new_marker_pos p);
              m_y := snd (new_marker_pos p); m_button := "left";
              m_interval := 2 # 10 |} in
  let l := next_loc p in
  let p1 :=
    {| core := core p; heap := <[l := m]> (heap p); next_loc := S l;
       markers := markers p ++ [l]; var_loops := var_loops p;
       var_delay := var_delay p; new_marker_pos := new_marker_pos p;
       runner := runner p; hotkeys_changed := hotkeys_changed p |} in
  page_log [MsgMarkerAdded mid] (refresh p1).

(** [ClickerPage.clear_markers] *)
Definition clear_markers (p : ClickerPage) : ClickerPage :=
  page_log [MsgMarkersCleared] (refresh (set_markers [] p)).

(** The [Marker] object at [self.markers[i]]. *)
Definition marker_at (i : Z) (p : ClickerPage) : option nat :=
  match py_index i (length (markers p)) with
  | Some k => markers p !! k
  | None => None
  end.

(** [ClickerPage._on_marker_move] *)
Definition on_marker_move (mid x y : Z) (p : ClickerPage)
    : ClickerPage + ClickerPage :=
  match marker_at (mid - 1) p with
  | None => inr p
  | Some l =>
    inl (refresh (set_heap (alter (fun m => set_y y (set_x x m)) l (heap p)) p))
  end.

(** [ClickerPage._on_marker_close]: [del self.markers[mid - 1]] *)
Definition on_marker_close (mid : Z) (p : ClickerPage)
    : ClickerPage + ClickerPage :=
  match py_index (mid - 1) (length (markers p)) with
  | None => inr p
  | Some k =>
    inl (page_log [MsgMarkerDeleted mid]
           (refresh (set_markers (delete k (markers p)) p)))
  end.

Inductive Column := ColX | ColY | ColBtn | ColInterval | ColOther.

(** The text of the cell editor, with what [float(new_val)] gives on it
    ([None]: [ValueError]). *)
Record EditorValue := { ed_text : string; ed_float : option Q }.

(** [ClickerPage._commit_editor]: every exception of the [try] block is
    swallowed, [_refresh] runs in the [finally]. *)
Definition commit_editor (idx : Z) (col : Column) (new_val : EditorValue)
    (p : ClickerPage) : ClickerPage :=
  let edited :=
    match marker_at idx p with
    | None => p
    | Some l =>
      match col with
      | ColX =>
        match ed_float new_val with
        | Some q => set_heap (alter (set_x (py_int q)) l (heap p)) p
        | None => p
        end
      | ColY =>
        match ed_float new_val with
        | Some q => set_heap (alter (set_y (py_int q)) l (heap p)) p
        | None => p
        end
      | ColBtn =>
        let b := if String.eqb (ed_text new_val) "左键" then "left" else "right" in
        set_heap (alter (set_button b) l (heap p)) p
      | ColInterval =>
        match ed_float new_val with
        | Some iv =>
          let iv := if Qltb iv interval_floor then interval_floor else iv in
          set_heap (alter (set_interval iv) l (heap p)) p
        | None => p
        end
      | ColOther => p
      end
    end in
  refresh edited.

(** [ClickerPage.toggle_start]: the runner gets [self.markers.copy()], a new
    list of the same [Marker] objects. *)
Definition toggle_start (p : ClickerPage) : ClickerPage :=
  if is_running (runner p) then set_runner (runner_stop (runner p)) p
  else
    let cfg := {| cfg_loops := var_loops p; cfg_delay := var_delay p |} in
    let markers_copy := markers p in
    let '(_, logged, r) := runner_start markers_copy cfg (runner p) in
    page_log logged (set_runner r p).

(** One element of the ["markers"] array of a persisted document. *)
Inductive MarkerEntry :=
  | MarkerDict (x y : Field Z) (button : option string) (interval : Field Q)
  | MarkerOther.     (* not a JSON object: [m.get] raises *)

(** The four assignments to [mm] in the loading loops, in order; [false]
    when one of them raised, with the object as it is then. *)
Definition fill_marker (e : MarkerEntry) (mm : Marker) : Marker * bool :=
  match e with
  | MarkerOther => (mm, false)
  | MarkerDict x y b iv =>
    match x with
    | Unusable => (mm, false)
    | _ =>
      let mm := set_x (match x with Given v => v | _ => m_x mm end) mm in
      match y with
      | Unusable => (mm, false)
      | _ =>
        let mm := set_y (match y with Given v => v | _ => m_y mm end) mm in
        let mm := set_button (default (m_button mm) b) mm in
        match iv with
        | Unusable => (mm, false)
        | _ =>
          (set_interval (match iv with Given v => v | _ => m_interval mm end) mm,
           true)
        end
      end
    end
  end.

(** [for m in data.get("markers", []): self.add_marker(); mm = self.markers[-1]; ...] *)
Fixpoint load_markers (es : list MarkerEntry) (p : ClickerPage)
    : ClickerPage * bool :=
  match es with
  | [] => (p, true)
  | e :: rest =>
    let p := add_marker p in
    match last (markers p) with
    | None => (p, false)
    | Some l =>
      match heap p !! l with
      | None => (p, false)
      | Some mm =>
        let '(mm, ok) := fill_marker e mm in
        let p := set_heap (<[l := mm]> (heap p)) p in
        if ok then load_markers rest p else (p, false)
      end
    end
  end.

(** A persisted clicker document, after [json.load]. *)
Record ConfigDoc := {
  doc_loops : option Z;
  doc_delay : option Q;
  doc_hotkeys : gmap string string;   (* empty when the key is absent *)
  doc_markers : list MarkerEntry
}.

(** Truth value of [hk.get(key)]: a non-empty string. *)
Definition truthy (o : option string) : option string :=
  match o with
  | Some s => if String.eqb s "" then None else Some s
  | None => None
  end.

(** The hotkey part of [load_config_file]. *)
Definition load_hotkeys (hk : gmap string string) (own : gmap string string)
    : gmap string string :=
  let own :=
    match truthy (hk !! "start_stop") with
    | Some s => <["start_stop" := s]> own
    | None => own
    end in
  match truthy (hk !! "add_marker") with
  | Some s =>
    if bool_decide (Some s = own !! "start_stop") then own
    else <["add_marker" := s]> own
  | None => own
  end.

(** [ClickerPage.load_config_file], from the parsed document on.  [inr]:
    an exception escapes, with the page as it is then. *)
Definition load_config_file (data : ConfigDoc) (p : ClickerPage)
    : ClickerPage + ClickerPage :=
  let p := clear_markers p in
  let p := set_vars (default 1 (doc_loops data)) (default 0%Q (doc_delay data)) p in
  let p := set_core (set_hotkeys (load_hotkeys (doc_hotkeys data) (hotkeys (core p)))
                       (core p)) p in
  let p := notify_hotkeys_changed p in
  let '(p, ok) := load_markers (doc_markers data) p in
  if ok then inl (page_log [MsgConfigLoaded] (refresh p)) else inr p.

(** [ClickerPage.import_state] on a non-empty [data]:
    [self.hotkeys.update(hk)] takes the persisted chords as they are. *)
Definition import_state (data : ConfigDoc) (p : ClickerPage)
    : ClickerPage + ClickerPage :=
  let p := set_core (set_hotkeys (doc_hotkeys data ∪ hotkeys (core p)) (core p)) p in
  let p := set_vars (default 1 (doc_loops data)) (default 0%Q (doc_delay data)) p in
  let p := clear_markers p in
  let '(p, ok) := load_markers (doc_markers data) p in
  if ok then inl (notify_hotkeys_changed (refresh p)) else inr p.

(** *** The main thread while a worker runs *)

(** What the user can do on the page between two steps of the worker. *)
Inductive PageOp :=
  | OpToggleStart
  | OpRunnerStart (ms : list nat) (cfg : ClickConfig)
  | OpRunnerStop
  | OpAddMarker
  | OpClearMarkers
  | OpMarkerMove (mid x y : Z)
  | OpMarkerClose (mid : Z)
  | OpCommitEditor (idx : Z) (col : Column) (v : EditorValue)
  | OpLoadConfig (data : ConfigDoc)
  | OpImportState (data : ConfigDoc).

Definition settle (r : ClickerPage + ClickerPage) : ClickerPage :=
  match r with inl p => p | inr p => p end.

Definition apply_op (op : PageOp) (p : ClickerPage) : ClickerPage :=
  match op with
  | OpToggleStart => toggle_start p
  | OpRunnerStart ms cfg =>
    let '(_, logged, r) := runner_start ms cfg (runner p) in
    page_log logged (set_runner r p)
  | OpRunnerStop => set_runner (runner_stop (runner p)) p
  | OpAddMarker => add_marker p
  | OpClearMarkers => clear_markers p
  | OpMarkerMove mid x y => settle (on_marker_move mid x y p)
  | OpMarkerClose mid => settle (on_marker_close mid p)
  | OpCommitEditor idx col v => commit_editor idx col v p
  | OpLoadConfig data => settle (load_config_file data p)
  | OpImportState data => settle (import_state data p)
  end.

Definition apply_ops (ops : list PageOp) (p : ClickerPage) : ClickerPage :=
  fold_left (fun p op => apply_op op p) ops p.

(** The page when the worker reads the flag for the k-th time: [sched k]
    are the operations run since the previous read. *)
Fixpoint page_at (sched : nat -> list PageOp) (p0 : ClickerPage) (k : nat)
    : ClickerPage :=
  match k with
  | O => apply_ops (sched O) p0
  | S k' => apply_ops (sched k) (page_at sched p0 k')
  end.

Definition shared_of (p : ClickerPage) : Shared :=
  {| sh_stop := stop_event (runner p); sh_heap := heap p |}.

(** A run of the worker started by [toggle_start] on [p0], with the main
    thread following [sched]: the exit and the effects of the task that
    was launched, if one was. *)
Definition run_from (fuel : nat) (sched : nat -> list PageOp)
    (p0 : ClickerPage) : option (Exit * list Effect) :=
  if is_running (runner p0) then None
  else
    let p1 := toggle_start p0 in
    if is_running (runner p1) then
      match last (runner_threads (runner p1)) with
      | Some t =>
        Some (worker fuel (fun k => shared_of (page_at sched p1 k))
                (task_cfg t) (task_markers t))
      | None => None
      end
    else None.

(** [asdict(m)], as far as the loaders read it back (they ignore ["id"]). *)
Definition marker_entry (m : Marker) : MarkerEntry :=
  MarkerDict (Given (m_x m)) (Given (m_y m)) (Some (m_button m))
    (Given (m_interval m)).

(** The [Marker] objects of [self.markers], in order. *)
Definition marker_values (p : ClickerPage) : list Marker :=
  omap (fun l => heap p !! l) (markers p).

(** [ClickerPage.export_state] *)
Definition export_state (p : ClickerPage) : ConfigDoc :=
  {| doc_loops := Some (var_loops p);
     doc_delay := Some (var_delay p);
     doc_hotkeys := hotkeys (core p);
     doc_markers := map marker_entry (marker_values p) |}.

End Clicker.

(** ** The application: two pages and the global hotkey manager *)

Module App.

Record RecorderPage := {
  rec_core : PageCore;
  recorder : Player.RecorderPlayer;
  rec_hotkeys_changed : nat          (* calls of self.on_hotkeys_changed *)
}.

(** The callbacks of the two [get_hotkey_mapping]. *)
Inductive Callback := CbToggleRecord | CbTogglePlay | CbStartStop | CbAddMarker.

Record MainApp := {
  page_rec : RecorderPage;
  page_clk : Clicker.ClickerPage;
  hotkey_mapping : gmap string Callback;   (* hotkey_mgr.mapping *)
  hotkey_listener : bool;                  (* hotkey_mgr.listener is running *)
  dialogs : list Msg                       (* messagebox.showinfo *)
}.

Inductive PageId := PageRec | PageClk.

Global Instance PageId_eq_dec : EqDecision PageId.
Proof. solve_decision. Defined.

Definition core_of (pid : PageId) (app : MainApp) : PageCore :=
  match pid with
  | PageRec => rec_core (page_rec app)
  | PageClk => Clicker.core (page_clk app)
  end.

Definition set_core_of (pid : PageId) (c : PageCore) (app : MainApp) : MainApp :=
  match pid with
  | PageRec =>
    {| page_rec := {| rec_core := c; recorder := recorder (page_rec app);
                      rec_hotkeys_changed := rec_hotkeys_changed (page_rec app) |};
       page_clk := page_clk app; hotkey_mapping := hotkey_mapping app;
       hotkey_listener := hotkey_listener app; dialogs := dialogs app |}
  | PageClk =>
    {| page_rec := page_rec app;
       page_clk := Clicker.set_core c (page_clk app);
       hotkey_mapping := hotkey_mapping app;
       hotkey_listener := hotkey_listener app; dialogs := dialogs app |}
  end.

Definition other_page (pid : PageId) : PageId :=
  match pid with PageRec => PageClk | PageClk => PageRec end.

(** [self._cap_label_vars]: one label per row of [_build_hotkey_tab]. *)
Definition cap_label_keys (pid : PageId) : list string :=
  match pid with
  | PageRec => ["toggle_record"; "toggle_play"]
  | PageClk => ["start_stop"; "add_marker"]
  end.

(** [page.get_all_hotkeys()]: [list(self.hotkeys.values())] *)
Definition page_all_hotkeys (c : PageCore) : list string :=
  (map_to_list (hotkeys c)).*2.

(** [MainApp.get_all_hotkeys(except_page)] *)
Definition get_all_hotkeys (except_page : option PageId) (app : MainApp)
    : list string :=
  (if bool_decide (except_page = Some PageRec) then []
   else page_all_hotkeys (core_of PageRec app))
  ++ (if bool_decide (except_page = Some PageClk) then []
      else page_all_hotkeys (core_of PageClk app)).

(** [_is_hotkey_in_use] of either page. *)
Definition is_hotkey_in_use (pid : PageId) (combo : string)
    (exclude_action : option string) (app : MainApp) : bool :=
  existsb (fun '(act, s) =>
             negb (bool_decide (Some act = exclude_action))
             && bool_decide (s = combo))
          (map_to_list (hotkeys (core_of pid app)))
  || bool_decide (combo ∈ get_all_hotkeys (Some pid) app).

(** [get_hotkey_mapping] of the two pages: dict displays, a later equal
    key replaces an earlier one. *)
Definition get_hotkey_mapping (pid : PageId) (app : MainApp)
    : gmap string Callback :=
  let hk := hotkeys (core_of pid app) in
  match pid with
  | PageRec =>
    <[hk !!! "toggle_play" := CbTogglePlay]>
      {[ hk !!! "toggle_record" := CbToggleRecord ]}
  | PageClk =>
    <[hk !!! "add_marker" := CbAddMarker]>
      {[ hk !!! "start_stop" := CbStartStop ]}
  end.

(** [MainApp.stop_hotkeys]: [hotkey_mgr.stop()] *)
Definition stop_hotkeys (app : MainApp) : MainApp :=
  {| page_rec := page_rec app; page_clk := page_clk app;
     hotkey_mapping := hotkey_mapping app; hotkey_listener := false;
     dialogs := dialogs app |}.

(** [MainApp.refresh_hotkeys]: the recorder's chords first, a clicker chord
    already present is skipped; then [hotkey_mgr.set_mapping].  Writing the
    configuration file is left out. *)
Definition refresh_hotkeys (app : MainApp) : MainApp :=
  let mapping :=
    get_hotkey_mapping PageRec app ∪ get_hotkey_mapping PageClk app in
  {| page_rec := page_rec app; page_clk := page_clk app;
     hotkey_mapping := mapping;
     hotkey_listener := negb (bool_decide (mapping = ∅));
     dialogs := dialogs app |}.

(** [page._notify_hotkeys_changed()]: both pages are built with
    [on_hotkeys_changed=self.refresh_hotkeys]. *)
Definition notify_hotkeys_changed (pid : PageId) (app : MainApp) : MainApp :=
  let app :=
    match pid with
    | PageRec =>
      {| page_rec := {| rec_core := rec_core (page_rec app);
                        recorder := recorder (page_rec app);
                        rec_hotkeys_changed := S (rec_hotkeys_changed (page_rec app)) |};
         page_clk := page_clk app; hotkey_mapping := hotkey_mapping app;
         hotkey_listener := hotkey_listener app; dialogs := dialogs app |}
    | PageClk =>
      {| page_rec := page_rec app;
         page_clk := Clicker.notify_hotkeys_changed (page_clk app);
         hotkey_mapping := hotkey_mapping app;
         hotkey_listener := hotkey_listener app; dialogs := dialogs app |}
    end in
  refresh_hotkeys app.

(** *** Hotkey capture *)

(** Keys as the [pynput] listener reports them. *)
Inductive Key :=
  | KShift | KShiftL | KShiftR
  | KCtrl | KCtrlL | KCtrlR
  | KAlt | KAltL | KAltR
  | KCmd | KCmdL | KCmdR
  | KEsc
  | KFunction (digits : string)           (* Key.f<digits> *)
  | KSpecial (name : string)              (* any other member of Key *)
  | KCode (vk : option Z) (char : option string).   (* a KeyCode *)

Definition mod_token (k : Key) : option string :=
  match k with
  | KShift | KShiftL | KShiftR => Some "<shift>"
  | KCtrl | KCtrlL | KCtrlR => Some "<ctrl>"
  | KAlt | KAltL | KAltR => Some "<alt>"
  | KCmd | KCmdL | KCmdR => Some "<cmd>"
  | _ => None
  end.

Definition is_modifier (k : Key) : bool :=
  match mod_token k with Some _ => true | None => false end.

(** [chr(vk)] for a code below 128. *)
Definition chr (vk : Z) : string :=
  String (Ascii.ascii_of_nat (Z.to_nat vk)) EmptyString.

(** [str.lower] on one ASCII character. *)
Definition lower_char (c : Ascii.ascii) : Ascii.ascii :=
  let n := Ascii.nat_of_ascii c in
  if ((65 <=? n) && (n <=? 90))%nat then Ascii.ascii_of_nat (n + 32) else c.

(** [keycode_to_char]; characters outside printable ASCII are not
    modelled and give [None]. *)
Definition keycode_to_char (vk : option Z) (char : option string)
    : option string :=
  let by_char :=
    match char with
    | Some (String c EmptyString) =>
      let n := Ascii.nat_of_ascii c in
      if ((32 <=? n) && (n <=? 126))%nat
      then Some (String (lower_char c) EmptyString) else None
    | _ => None
    end in
  match vk with
  | Some v =>
    if (48 <=? v) && (v <=? 57) then Some (chr v)
    else if (65 <=? v) && (v <=? 90) then Some (chr (v + 32))
    else by_char
  | None => by_char
  end.

(** The non-modifier token of [on_press]. *)
Definition keystr_of (k : Key) : option string :=
  match k with
  | KCode vk char => keycode_to_char vk char
  | KFunction digits => Some ("<f" ++ digits ++ ">")%string
  | _ => None
  end.

Definition mod_order : list string := ["<ctrl>"; "<alt>"; "<shift>"; "<cmd>"].

(** [sorted(self._cap_pressed, key=lambda x: order.index(x) if x in order else 99)] *)
Definition sorted_mods (pressed : gset string) : list string :=
  filter (fun t => t ∈ pressed) mod_order
  ++ filter (fun t => t ∉ mod_order) (elements pressed).

(** ["+".join(mods + [keystr]) if mods else keystr] *)
Definition combo_of (pressed : gset string) (keystr : string) : string :=
  match sorted_mods pressed with
  | [] => keystr
  | mods => String.concat "+" (mods ++ [keystr])
  end.

(** [_begin_capture] of either page.  [inr]: a [KeyError] escapes (an
    action without a label or a chord). *)
Definition begin_capture (pid : PageId) (action : string) (app : MainApp)
    : MainApp + MainApp :=
  let c := core_of pid app in
  match capture_action c with
  | Some _ =>
    inl {| page_rec := page_rec app; page_clk := page_clk app;
           hotkey_mapping := hotkey_mapping app;
           hotkey_listener := hotkey_listener app;
           dialogs := dialogs app ++ [MsgCaptureBusy] |}
  | None =>
    let c := {| hotkeys := hotkeys c; capture_action := Some action;
                cap_listener := cap_listener c; cap_pressed := cap_pressed c;
                edit_buttons_disabled := true; log_text := log_text c |} in
    let app := stop_hotkeys (set_core_of pid c app) in
    if bool_decide (action ∈ cap_label_keys pid)
       && bool_decide (is_Some (hotkeys c !! action))
    then
      let c := {| hotkeys := hotkeys c; capture_action := Some action;
                  cap_listener := true; cap_pressed := ∅;
                  edit_buttons_disabled := true;
                  log_text := log_text c ++ [MsgCaptureBegin action] |} in
      inl (set_core_of pid c app)
    else inr app
  end.

(** [_end_capture] of either page. *)
Definition end_capture (pid : PageId) (app : MainApp) : MainApp :=
  let c := core_of pid app in
  let c := {| hotkeys := hotkeys c; capture_action := None;
              cap_listener := false; cap_pressed := ∅;
              edit_buttons_disabled := false; log_text := log_text c |} in
  refresh_hotkeys (notify_hotkeys_changed pid (set_core_of pid c app)).

(** The [on_press] callback of the capture listener of page [pid]; it runs
    only while that listener does. *)
Definition on_press (pid : PageId) (key : Key) (app : MainApp) : MainApp :=
  let c := core_of pid app in
  match cap_listener c, capture_action c with
  | true, Some action =>
    if is_modifier key then
      match mod_token key with
      | Some tok => set_core_of pid (set_pressed ({[tok]} ∪ cap_pressed c) c) app
      | None => app
      end
    else
      match keystr_of key with
      | None => app
      | Some keystr =>
        let combo := combo_of (cap_pressed c) keystr in
        if is_hotkey_in_use pid combo (Some action) app then
          set_core_of pid
            (set_pressed ∅ (add_log [MsgCaptureConflict combo] c)) app
        else
          let c := set_hotkeys (<[action := combo]> (hotkeys c)) c in
          let c := add_log [MsgCaptureSet action combo] c in
          end_capture pid (set_core_of pid c app)
      end
  | _, _ => app
  end.

(** The [on_release] callback of the capture listener of page [pid]. *)
Definition on_release (pid : PageId) (key : Key) (app : MainApp) : MainApp :=
  let c := core_of pid app in
  if cap_listener c then
    if is_modifier key then
      match mod_token key with
      | Some tok => set_core_of pid (set_pressed (cap_pressed c ∖ {[tok]}) c) app
      | None => app
      end
    else
      match key with
      | KEsc =>
        end_capture pid (set_core_of pid (add_log [MsgCaptureCancelled] c) app)
      | _ => app
      end
  else app.

(** *** Chords after loading the configuration *)

Definition fallback_pool : list string :=
  ["<ctrl>+<alt>+r>"; "<ctrl>+<alt>+p>"; "<ctrl>+<alt>+m>"].

(** [add_or_fix] of [ensure_no_duplicates_on_load], with the set [used]
    it closes over. *)
Definition add_or_fix (combo : string) (preferred_pool : list string)
    (used : gset string) : string * gset string :=
  if bool_decide (combo ∉ used) then (combo, {[combo]} ∪ used)
  else
    match List.find (fun c => bool_decide (c ∉ used)) preferred_pool with
    | Some c => (c, {[c]} ∪ used)
    | None =>
      match List.find (fun c => bool_decide (c ∉ used)) fallback_pool with
      | Some c => (c, {[c]} ∪ used)
      | None => (combo, used)
      end
    end.

Definition pools_clk : list string :=
  ["<f6>"; "<f7>"; "<f8>"; "<f9>"; "<f10>"; "<f11>"; "<f12>"].
Definition pools_rec : list string :=
  ["<f9>"; "<f10>"; "<f11>"; "<f12>"; "<f6>"; "<f7>"; "<f8>"].

(** [MainApp.ensure_no_duplicates_on_load] *)
Definition ensure_no_duplicates_on_load (app : MainApp) : MainApp :=
  let used : gset string := ∅ in
  let hk_clk := hotkeys (core_of PageClk app) in
  let '(c, used) := add_or_fix (default "<f6>" (hk_clk !! "add_marker")) pools_clk used in
  let hk_clk := <["add_marker" := c]> hk_clk in
  let '(c, used) := add_or_fix (default "<f7>" (hk_clk !! "start_stop")) pools_clk used in
  let hk_clk := <["start_stop" := c]> hk_clk in
  let hk_rec := hotkeys (core_of PageRec app) in
  let '(c, used) := add_or_fix (default "<f9>" (hk_rec !! "toggle_record")) pools_rec used in
  let hk_rec := <["toggle_record" := c]> hk_rec in
  let '(c, used) := add_or_fix (default "<f10>" (hk_rec !! "toggle_play")) pools_rec used in
  let hk_rec := <["toggle_play" := c]> hk_rec in
  let app := set_core_of PageClk (set_hotkeys hk_clk (core_of PageClk app)) app in
  set_core_of PageRec (set_hotkeys hk_rec (core_of PageRec app)) app.

(** Each chord is held by at most one (page, action) pair. *)
Definition chords_unique (app : MainApp) : Prop :=
  forall p1 a1 p2 a2 chord,
    hotkeys (core_of p1 app) !! a1 = Some chord ->
    hotkeys (core_of p2 app) !! a2 = Some chord ->
    p1 = p2 /\ a1 = a2.

(** The state built by the constructors, before any configuration is
    imported. *)
Definition initial_core (hk : gmap string string) : PageCore :=
  {| hotkeys := hk; capture_action := None; cap_listener := false;
     cap_pressed := ∅; edit_buttons_disabled := false; log_text := [] |}.

Definition initial_app : MainApp :=
  {| page_rec :=
       {| rec_core := initial_core
            (<["toggle_play" := "<f10>"]> {[ "toggle_record" := "<f9>" ]});
          recorder :=
            {| Player.recording := []; Player.stop_play_event := false;
               Player.is_playing := false; Player.player_log := [];
               Player.threads := [] |};
          rec_hotkeys_changed := 0 |};
     page_clk :=
       {| Clicker.core := initial_core
            (<["add_marker" := "<f6>"]> {[ "start_stop" := "<f7>" ]});
          Clicker.heap := ∅; Clicker.next_loc := 0; Clicker.markers := [];
          Clicker.var_loops := 1; Clicker.var_delay := 0;
          Clicker.new_marker_pos := (0, 0);
          Clicker.runner :=
            {| Clicker.stop_event := false; Clicker.is_running := false;
               Clicker.runner_threads := [] |};
          Clicker.hotkeys_changed := 0 |};
     hotkey_mapping := ∅; hotkey_listener := false; dialogs := [] |}.

(** [MainApp.import_config] on non-empty page states:
    [RecorderPage.import_state] (of which only [self.hotkeys.update(hk)]
    touches modelled state), then [ClickerPage.import_state]; each ends by
    notifying the application. *)
Definition import_config (rec_hotkeys : gmap string string)
    (clk : Clicker.ConfigDoc) (app : MainApp) : MainApp + MainApp :=
  let c := core_of PageRec app in
  let app :=
    notify_hotkeys_changed PageRec
      (set_core_of PageRec (set_hotkeys (rec_hotkeys ∪ hotkeys c) c) app) in
  let with_clk (p : Clicker.ClickerPage) :=
    {| page_rec := page_rec app; page_clk := p;
       hotkey_mapping := hotkey_mapping app;
       hotkey_listener := hotkey_listener app; dialogs := dialogs app |} in
  match Clicker.import_state clk (page_clk app) with
  | inl p => inl (refresh_hotkeys (with_clk p))
  | inr p => inr (with_clk p)
  end.

End App.

(** ** Recording *)

Module Recorder.

(** Lines of the recording side. *)
Inductive Note :=
  | NoteRecordingStarted              (* "开始录制" *)
  | NoteEventCount (n : nat)          (* "停止录制，共记录 {n} 个事件" *)
  | NoteRecordingStopped              (* "停止录制" *)
  | NoteSaved                         (* "保存录制到 {path}" *)
  | NotePlayThreadEnded.              (* "回放线程结束" *)

(** The attributes of [RecorderPlayer] that recording uses, around the
    ones playback uses. *)
Record RecorderState := {
  player : Player.RecorderPlayer;
  sample_interval : Q;                 (* self.sample_interval *)
  start_time : option Q;               (* self._start_time *)
  last_mouse_pos : option (Z * Z);     (* self._last_mouse_pos *)
  listening : bool;                    (* self._mouse_listener is not None *)
  stop_record_event : bool;            (* self._stop_record_event *)
  notes : list Note                    (* lines given to self.log *)
}.

Definition set_player (pl : Player.RecorderPlayer) (st : RecorderState)
    : RecorderState :=
  {| player := pl; sample_interval := sample_interval st;
     start_time := start_time st; last_mouse_pos := last_mouse_pos st;
     listening := listening st; stop_record_event := stop_record_event st;
     notes := notes st |}.

Definition set_recording (evs : list Player.Event) (st : RecorderState)
    : RecorderState :=
  set_player
    {| Player.recording := evs;
       Player.stop_play_event := Player.stop_play_event (player st);
       Player.is_playing := Player.is_playing (player st);
       Player.player_log := Player.player_log (player st);
       Player.threads := Player.threads (player st) |} st.

Definition events (st : RecorderState) : list Player.Event :=
  Player.recording (player st).

(** [RecorderPlayer.reset_recording] *)
Definition reset_recording (st : RecorderState) : RecorderState :=
  let st := set_recording [] st in
  {| player := player st; sample_interval := sample_interval st;
     start_time := None; last_mouse_pos := None;
     listening := listening st; stop_record_event := stop_record_event st;
     notes := notes st |}.

(** [RecorderPlayer._record_event] *)
Definition record_event (e : Player.Event) (st : RecorderState) : RecorderState :=
  set_recording (events st ++ [e]) st.

Definition move_event (t : Q) (x y : Z) : Player.Event :=
  {| Player.ev_t := t; Player.ev_type := "mouse_move";
     Player.ev_x := Some x; Player.ev_y := Some y;
     Player.ev_dx := None; Player.ev_dy := None;
     Player.ev_button := None; Player.ev_key := None |}.

(** The listener callbacks.  [now] is what [time.time()] returns in the
    call; without a start time the subtraction raises and nothing is
    recorded. *)

(** [RecorderPlayer._on_mouse_move] *)
Definition on_mouse_move (now : Q) (x y : Z) (st : RecorderState)
    : RecorderState :=
  match start_time st with
  | None => st
  | Some t0 =>
    let st := record_event (move_event (now - t0) x y) st in
    {| player := player st; sample_interval := sample_interval st;
       start_time := start_time st; last_mouse_pos := Some (x, y);
       listening := listening st; stop_record_event := stop_record_event st;
       notes := notes st |}
  end.

(** [RecorderPlayer._on_mouse_click]; [button] is [str(button)]. *)
Definition on_mouse_click (now : Q) (x y : Z) (button : string)
    (pressed : bool) (st : RecorderState) : RecorderState :=
  match start_time st with
  | None => st
  | Some t0 =>
    record_event
      {| Player.ev_t := now - t0;
         Player.ev_type := if pressed then "mouse_down" else "mouse_up";
         Player.ev_x := Some x; Player.ev_y := Some y;
         Player.ev_dx := None; Player.ev_dy := None;
         Player.ev_button := Some button; Player.ev_key := None |} st
  end.

(** [RecorderPlayer._on_mouse_scroll] *)
Definition on_mouse_scroll (now : Q) (x y dx dy : Z) (st : RecorderState)
    : RecorderState :=
  match start_time st with
  | None => st
  | Some t0 =>
    record_event
      {| Player.ev_t := now - t0; Player.ev_type := "mouse_scroll";
         Player.ev_x := Some x; Player.ev_y := Some y;
         Player.ev_dx := Some dx; Player.ev_dy := Some dy;
         Player.ev_button := None; Player.ev_key := None |} st
  end.

(** [RecorderPlayer._on_key_press] and [_on_key_release]; [kstr] is the
    string their [try] computes (the character, ["Key." + name], or
    [str(key)]). *)
Definition on_key (down : bool) (now : Q) (kstr : string) (st : RecorderState)
    : RecorderState :=
  match start_time st with
  | None => st
  | Some t0 =>
    record_event
      {| Player.ev_t := now - t0;
         Player.ev_type := if down then "key_down" else "key_up";
         Player.ev_x := None; Player.ev_y := None;
         Player.ev_dx := None; Player.ev_dy := None;
         Player.ev_button := None; Player.ev_key := Some kstr |} st
  end.

(** One turn of the [sampler] loop of [start_recording]. *)
Definition sampler_step (now : Q) (st : RecorderState) : RecorderState :=
  if stop_record_event st then st
  else
    match last_mouse_pos st, start_time st with
    | Some (x, y), Some t0 => record_event (move_event (now - t0) x y) st
    | _, _ => st
    end.

(** [RecorderPlayer.start_recording] at clock reading [now]. *)
Definition start_recording (now : Q) (interval : option Q) (st : RecorderState)
    : (bool * Note) * RecorderState :=
  let st := reset_recording st in
  ((true, NoteRecordingStarted),
   {| player := player st;
      sample_interval := default (sample_interval st) interval;
      start_time := Some now; last_mouse_pos := last_mouse_pos st;
      listening := true; stop_record_event := false;
      notes := notes st ++ [NoteRecordingStarted] |}).

(** [RecorderPlayer.stop_recording] *)
Definition stop_recording (st : RecorderState) : (bool * Note) * RecorderState :=
  ((true, NoteRecordingStopped),
   {| player := player st; sample_interval := sample_interval st;
      start_time := start_time st; last_mouse_pos := last_mouse_pos st;
      listening := false; stop_record_event := true;
      notes := notes st ++ [NoteEventCount (length (events st))] |}).

(** [RecorderPlayer.is_recording] *)
Definition is_recording (st : RecorderState) : bool := listening st.

(** What the input listeners and the sampler thread bring, each with the
    clock reading of its callback. *)
Inductive Notification :=
  | NMove (now : Q) (x y : Z)
  | NClick (now : Q) (x y : Z) (button : string) (pressed : bool)
  | NScroll (now : Q) (x y dx dy : Z)
  | NKey (down : bool) (now : Q) (kstr : string)
  | NSample (now : Q).


(** The listeners call back only while they run; the sampler checks its
    own flag. *)
Definition deliver (n : Notification) (st : RecorderState) : RecorderState :=
  match n with
  | NSample now => sampler_step now st
  | NMove now x y => if listening st then on_mouse_move now x y st else st
  | NClick now x y b pressed =>
    if listening st then on_mouse_click now x y b pressed st else st
  | NScroll now x y dx dy =>
    if listening st then on_mouse_scroll now x y dx dy st else st
  | NKey down now k => if listening st then on_key down now k st else st
  end.


(** [asdict(e)] as JSON: every field is written, [None] as [null]. *)
Definition event_entry (e : Player.Event) : Player.EventEntry :=
  Player.EventDict (Some (Player.ev_t e)) (Some (Player.ev_type e))
    (Player.ev_x e) (Player.ev_y e) (Player.ev_dx e) (Player.ev_dy e)
    (Player.ev_button e) (Player.ev_key e) false.

(** [RecorderPlayer.save_to_file]: the document written. *)
Definition save_to_file (st : RecorderState)
    : list Player.EventEntry * RecorderState :=
  (map event_entry (events st),
   {| player := player st; sample_interval := sample_interval st;
      start_time := start_time st; last_mouse_pos := last_mouse_pos st;
      listening := listening st; stop_record_event := stop_record_event st;
      notes := notes st ++ [NoteSaved] |}).

(** *** The recorder page *)

Record Page := {
  state : RecorderState;          (* self.recorder *)
  var_interval : Q;
  var_speed : Q;
  var_loops : Z;
  var_gap : Q;
  var_delay : Q;
  btn_play_disabled : bool;
  btn_record_disabled : bool;
  lines : list (Msg + Note)       (* lines written by self.log *)
}.

Definition interval_min : Q := 1 # 100.
Definition interval_max : Q := 1.

(** [RecorderPage.start_record] *)
Definition start_record (now : Q) (pg : Page) : Page :=
  let interval := py_max interval_min (py_min interval_max (var_interval pg)) in
  let '((ok, msg), st) := start_recording now (Some interval) (state pg) in
  {| state := st; var_interval := interval; var_speed := var_speed pg;
     var_loops := var_loops pg; var_gap := var_gap pg;
     var_delay := var_delay pg;
     btn_play_disabled := if ok then true else btn_play_disabled pg;
     btn_record_disabled := btn_record_disabled pg;
     lines := lines pg ++ [inr msg] |}.

(** [RecorderPage.stop_record] *)
Definition stop_record (pg : Page) : Page :=
  let '((_, msg), st) := stop_recording (state pg) in
  {| state := st; var_interval := var_interval pg; var_speed := var_speed pg;
     var_loops := var_loops pg; var_gap := var_gap pg;
     var_delay := var_delay pg; btn_play_disabled := false;
     btn_record_disabled := btn_record_disabled pg;
     lines := lines pg ++ [inr msg] |}.

(** [RecorderPage.start_play] *)
Definition start_play (pg : Page) : Page :=
  let '((ok, msg), pl) :=
    Player.start_playback (var_speed pg) (var_loops pg) (var_gap pg)
      (var_delay pg) (player (state pg)) in
  {| state := set_player pl (state pg);
     var_interval := var_interval pg; var_speed := var_speed pg;
     var_loops := var_loops pg; var_gap := var_gap pg;
     var_delay := var_delay pg; btn_play_disabled := btn_play_disabled pg;
     btn_record_disabled := if ok then true else btn_record_disabled pg;
     lines := lines pg ++ [inl msg] |}.

(** [RecorderPage.stop_play] *)
Definition stop_play (pg : Page) : Page :=
  let '((_, msg), pl) := Player.stop_playback (player (state pg)) in
  {| state := set_player pl (state pg);
     var_interval := var_interval pg; var_speed := var_speed pg;
     var_loops := var_loops pg; var_gap := var_gap pg;
     var_delay := var_delay pg; btn_play_disabled := btn_play_disabled pg;
     btn_record_disabled := false;
     lines := lines pg ++ [inl msg] |}.

(** [RecorderPage.toggle_record] *)
Definition toggle_record (now : Q) (pg : Page) : Page :=
  if Player.is_playing (player (state pg)) then pg
  else if is_recording (state pg) then stop_record pg
  else start_record now pg.

(** [RecorderPage.toggle_play] *)
Definition toggle_play (pg : Page) : Page :=
  if is_recording (state pg) then pg
  else if Player.is_playing (player (state pg)) then stop_play pg
  else start_play pg.

(** The end of the playback thread: the [finally] of [play_loop] resets
    [_is_playing], then [RecorderPage._on_play_end] runs [stop_play] and
    logs. *)
Definition play_thread_end (pg : Page) : Page :=
  let pl := player (state pg) in
  let pl := {| Player.recording := Player.recording pl;
               Player.stop_play_event := Player.stop_play_event pl;
               Player.is_playing := false;
               Player.player_log := Player.player_log pl;
               Player.threads := Player.threads pl |} in
  let pg := stop_play
    {| state := set_player pl (state pg);
       var_interval := var_interval pg; var_speed := var_speed pg;
       var_loops := var_loops pg; var_gap := var_gap pg;
       var_delay := var_delay pg; btn_play_disabled := btn_play_disabled pg;
       btn_record_disabled := btn_record_disabled pg; lines := lines pg |} in
  {| state := state pg; var_interval := var_interval pg;
     var_speed := var_speed pg; var_loops := var_loops pg;
     var_gap := var_gap pg; var_delay := var_delay pg;
     btn_play_disabled := btn_play_disabled pg;
     btn_record_disabled := btn_record_disabled pg;
     lines := lines pg ++ [inr NotePlayThreadEnded] |}.

(** What can happen to the page: the two toggles (button or hotkey), an
    input notification, the end of the playback thread. *)
Inductive PageEvent :=
  | ToggleRecord (now : Q)
  | TogglePlay
  | Notify (n : Notification)
  | PlayThreadEnd.

Definition step (e : PageEvent) (pg : Page) : Page :=
  match e with
  | ToggleRecord now => toggle_record now pg
  | TogglePlay => toggle_play pg
  | Notify n =>
    {| state := deliver n (state pg); var_interval := var_interval pg;
       var_speed := var_speed pg; var_loops := var_loops pg;
       var_gap := var_gap pg; var_delay := var_delay pg;
       btn_play_disabled := btn_play_disabled pg;
       btn_record_disabled := btn_record_disabled pg; lines := lines pg |}
  | PlayThreadEnd => play_thread_end pg
  end.

Definition steps (es : list PageEvent) (pg : Page) : Page :=
  fold_left (fun pg e => step e pg) es pg.

(** The page as [RecorderPage.__init__] builds it. *)
Definition initial_page : Page :=
  {| state :=
       {| player :=
            {| Player.recording := []; Player.stop_play_event := false;
               Player.is_playing := false; Player.player_log := [];
               Player.threads := [] |};
          sample_interval := 1 # 10; start_time := None;
          last_mouse_pos := None; listening := false;
          stop_record_event := false; notes := [] |};
     var_interval := 1 # 10; var_speed := 1; var_loops := 1;
     var_gap := 0; var_delay := 0;
     btn_play_disabled := false; btn_record_disabled := false;
     lines := [] |}.

End Recorder.

(** ** Vocabulary of the statements *)

(** Timestamps that never go back, counted from the start of the recording
    (where [prev_t] starts). *)
Fixpoint nondecreasing_from (prev : Q) (ts : list Q) : Prop :=
  match ts with
  | [] => True
  | t :: rest => (prev <= t)%Q /\ nondecreasing_from t rest
  end.

(** A button event carries its button and a key event its key, as the
    recorder writes them. *)
Definition has_payload (ev : Player.Event) : bool :=
  let ty := Player.ev_type ev in
  if String.eqb ty "mouse_down" || String.eqb ty "mouse_up" then
    match Player.ev_button ev with Some _ => true | None => false end
  else if String.eqb ty "key_down" || String.eqb ty "key_up" then
    match Player.ev_key ev with Some _ => true | None => false end
  else true.

Definition effect_of (ev : Player.Event) : list Out :=
  default [] (Player.apply_event ev).

(** The values of [prev_t] met by the events of one pass: [0], then the
    timestamp of each event applied. *)
Definition prev_times (start : Q) (evs : list Player.Event) : list Q :=
  start :: map Player.ev_t evs.

(** The suspension before each event of one pass, as the code computes it. *)
Definition replay_waits (speed start : Q) (evs : list Player.Event) : list Q :=
  zip_with (fun prev ev => Player.wait_time (Player.ev_t ev) prev speed)
    (prev_times start evs) evs.

(** One pass over the snapshot: every event in recorded order, each after a
    read of the (unset) flag and its suspension. *)
Definition replay_pass (speed start : Q) (evs : list Player.Event)
    : list Effect :=
  concat (zip_with
            (fun w ev => Observe false :: Sleep EventWait w :: map Do (effect_of ev))
            (replay_waits speed start evs) evs).

Definition replay_round (speed gap : Q) (evs : list Player.Event) (i : nat)
    : list Effect :=
  Observe false :: Log (MsgLoopBegin i) :: replay_pass speed 0 evs
    ++ Log (MsgLoopEnd i) :: (if Qltb 0 gap then [Sleep GapSleep gap] else []).

Definition replay_delay (delay : Q) : list Effect :=
  if Qltb 0 delay then [Log (MsgPlaybackDelay delay); Sleep DelaySleep delay]
  else [].

(** A whole run of [rounds] rounds that is never cancelled. *)
Definition replay_run (speed : Q) (rounds : nat) (gap delay : Q)
    (evs : list Player.Event) : list Effect :=
  replay_delay delay
    ++ concat (map (replay_round speed gap evs) (seq 1 rounds))
    ++ [Log MsgPlaybackDone; OnEnd].

(** The suspension as the specification words it: [(t - prev_t) / speed],
    not below 0. *)
Definition stated_wait (t prev_t speed : Q) : Q :=
  py_max 0 ((t - prev_t) / speed)%Q.

Definition sleeps_at (site : SleepSite) (tr : list Effect) : list Q :=
  flat_map (fun e =>
              match e with
              | Sleep s d =>
                match site, s with
                | DelaySleep, DelaySleep | EventWait, EventWait
                | GapSleep, GapSleep | MarkerWait, MarkerWait => [d]
                | _, _ => []
                end
              | _ => []
              end) tr.

Definition outputs (tr : list Effect) : list Out :=
  flat_map (fun e => match e with Do o => [o] | _ => [] end) tr.

(** A run of either worker, seen from outside: through its effects. *)
Inductive Run :=
  | PlaybackRun (fuel : nat) (flag : nat -> bool) (speed : Q) (loops : Z)
      (gap delay : Q) (events_copy : list Player.Event)
  | ClickRun (fuel : nat) (sched : nat -> list Clicker.PageOp)
      (p0 : Clicker.ClickerPage).

Definition run_trace (r : Run) : option (list Effect) :=
  match r with
  | PlaybackRun fuel flag speed loops gap delay evs =>
    Some (snd (Player.play_loop fuel flag speed loops gap delay evs))
  | ClickRun fuel sched p0 => option_map snd (Clicker.run_from fuel sched p0)
  end.

(** *** Sample data *)

(** A press at 0 s and a release at 0.2 s of the left button at (10, 10). *)
Definition press_release : list Player.Event :=
  [ {| Player.ev_t := 0; Player.ev_type := "mouse_down";
       Player.ev_x := Some 10; Player.ev_y := Some 10;
       Player.ev_dx := None; Player.ev_dy := None;
       Player.ev_button := Some "Button.left"; Player.ev_key := None |};
    {| Player.ev_t := 2 # 10; Player.ev_type := "mouse_up";
       Player.ev_x := Some 10; Player.ev_y := Some 10;
       Player.ev_dx := None; Player.ev_dy := None;
       Player.ev_button := Some "Button.left"; Player.ev_key := None |} ].

(** One pointer move recorded at 1 s. *)
Definition one_move : list Player.Event :=
  [ {| Player.ev_t := 1; Player.ev_type := "mouse_move";
       Player.ev_x := Some 0; Player.ev_y := Some 0;
       Player.ev_dx := None; Player.ev_dy := None;
       Player.ev_button := None; Player.ev_key := None |} ].

(** A speed of [1e-10]. *)
Definition crawl : Q := 1 # 10000000000.

Definition number (text : string) (q : Q) : Clicker.EditorValue :=
  {| Clicker.ed_text := text; Clicker.ed_float := Some q |}.

(** The clicker page after two markers were added and edited to
    (5, 5, left, 0.2 s) and (50, 50, right, 0.1 s), with two loops set. *)
Definition two_markers : Clicker.ClickerPage :=
  Clicker.apply_ops
    [ Clicker.OpAddMarker; Clicker.OpAddMarker;
      Clicker.OpCommitEditor 0 Clicker.ColX (number "5" 5);
      Clicker.OpCommitEditor 0 Clicker.ColY (number "5" 5);
      Clicker.OpCommitEditor 1 Clicker.ColX (number "50" 50);
      Clicker.OpCommitEditor 1 Clicker.ColY (number "50" 50);
      Clicker.OpCommitEditor 1 Clicker.ColBtn
        {| Clicker.ed_text := "右键"; Clicker.ed_float := None |};
      Clicker.OpCommitEditor 1 Clicker.ColInterval (number "0.1" (1 # 10)) ]
    (Clicker.set_vars 2 0 (App.page_clk App.initial_app)).

(** The main thread does nothing while the worker runs. *)
Definition idle : nat -> list Clicker.PageOp := fun _ => [].

(** The user toggles the run off while the worker sleeps after its first
    click. *)
Definition stop_after_first_click : nat -> list Clicker.PageOp :=
  fun k => if (k =? 2)%nat then [Clicker.OpToggleStart] else [].

(** The user sets the X of the first marker to 100 after the first round
    of the run. *)
Definition move_first_marker : nat -> list Clicker.PageOp :=
  fun k =>
    if (k =? 3)%nat
    then [Clicker.OpCommitEditor 0 Clicker.ColX (number "100" 100)]
    else [].

(** The user removes the second marker and adds a new one after the first
    round of the run. *)
Definition replace_second_marker : nat -> list Clicker.PageOp :=
  fun k =>
    if (k =? 3)%nat then [Clicker.OpMarkerClose 2; Clicker.OpAddMarker] else [].

(** A persisted clicker document with one marker whose ["y"] is not a
    number. *)
Definition bad_marker_doc : Clicker.ConfigDoc :=
  {| Clicker.doc_loops := Some 7; Clicker.doc_delay := None;
     Clicker.doc_hotkeys := ∅;
     Clicker.doc_markers := [Clicker.MarkerDict (Given 1) Unusable None Absent] |}.

(** A persisted recording whose second element lacks its ["type"]. *)
Definition bad_recording_doc : list Player.EventEntry :=
  [ Player.EventDict (Some 0%Q) (Some "mouse_move") (Some 1) (Some 1)
      None None None None false;
    Player.EventDict (Some 1%Q) None None None None None None None false ].

(** A persisted clicker document with one marker whose interval is
    0.0001 s. *)
Definition tiny_interval_doc : Clicker.ConfigDoc :=
  {| Clicker.doc_loops := None; Clicker.doc_delay := None;
     Clicker.doc_hotkeys := ∅;
     Clicker.doc_markers :=
       [Clicker.MarkerDict (Given 5) (Given 5) (Some "left") (Given (1 # 10000)%Q)] |}.

(** The fields of a marker that decide where, how and how long the worker
    clicks: all but its number. *)
Definition click_fields (m : Clicker.Marker) : Z * Z * string * Q :=
  (Clicker.m_x m, Clicker.m_y m, Clicker.m_button m, Clicker.m_interval m).

(** A persisted clicker state that gives [start_stop] the chord the
    recorder page holds for [toggle_record]. *)
Definition f9_for_start_stop : Clicker.ConfigDoc :=
  {| Clicker.doc_loops := None; Clicker.doc_delay := None;
     Clicker.doc_hotkeys := {[ "start_stop" := "<f9>" ]};
     Clicker.doc_markers := [] |}.

Definition settle_app (r : App.MainApp + App.MainApp) : App.MainApp :=
  match r with inl a => a | inr a => a end.

(** One pointer move stamped 1 s before the start of the recording, as a
    loaded file may have it. *)
Definition early_move : list Player.Event :=
  [ {| Player.ev_t := -1; Player.ev_type := "mouse_move";
       Player.ev_x := Some 0; Player.ev_y := Some 0;
       Player.ev_dx := None; Player.ev_dy := None;
       Player.ev_button := None; Player.ev_key := None |} ].

(** A button press that lost its button, as a loaded file may have it. *)
Definition press_without_button : list Player.Event :=
  [ {| Player.ev_t := 0; Player.ev_type := "mouse_down";
       Player.ev_x := Some 0; Player.ev_y := Some 0;
       Player.ev_dx := None; Player.ev_dy := None;
       Player.ev_button := None; Player.ev_key := None |} ].

(** A persisted clicker document that gives [start_stop] the chord "<f6>"
    and says nothing of [add_marker]. *)
Definition f6_for_start_stop : Clicker.ConfigDoc :=
  {| Clicker.doc_loops := None; Clicker.doc_delay := None;
     Clicker.doc_hotkeys := {[ "start_stop" := "<f6>" ]};
     Clicker.doc_markers := [] |}.

(** *** Vocabulary of the further properties *)



(** The cancellation flag is set from the [k0]-th read on. *)
Definition set_from (k0 : nat) (flag : nat -> bool) : Prop :=
  forall k, (k0 <= k)%nat -> flag k = true.

(** What one marker makes the click worker do. *)
Definition click_step (m : Clicker.Marker) : list Effect :=
  [ Observe false;
    Do (SetPosition (Some (Clicker.m_x m)) (Some (Clicker.m_y m)));
    Do (ClickButton (Clicker.marker_button (Clicker.m_button m)) 1);
    Log (MsgClicked (Clicker.m_id m) (Clicker.m_button m)
           (Clicker.m_x m) (Clicker.m_y m));
    Sleep MarkerWait (Clicker.click_wait (Clicker.m_interval m)) ].

Definition click_round (ms : list Clicker.Marker) (i : nat) : list Effect :=
  Observe false :: Log (MsgRoundBegin i) :: flat_map click_step ms
    ++ [Log (MsgRoundEnd i)].

Definition click_delay (delay : Q) : list Effect :=
  if Qltb 0 delay
  then [Log (MsgStartDelay delay); Sleep DelaySleep (py_max 0 delay)]
  else [].

(** The markers of the page are distinct objects that exist, created
    before the next one will be. *)
Definition page_wf (p : Clicker.ClickerPage) : Prop :=
  NoDup (Clicker.markers p)
  /\ forall l, l ∈ Clicker.markers p ->
       is_Some (Clicker.heap p !! l) /\ (l < Clicker.next_loc p)%nat.

(** The marker at position [i] of the list carries the number [i + 1]. *)
Definition ids_dense (p : Clicker.ClickerPage) : Prop :=
  forall (i : nat) (l : nat),
    Clicker.markers p !! i = Some l ->
    Clicker.m_id <$> (Clicker.heap p !! l) = Some (Z.of_nat i + 1).

(** The held-modifier set holds modifier tokens only. *)
Definition mods_only (pressed : gset string) : Prop :=
  forall t, t ∈ pressed -> t ∈ App.mod_order.


(** Recording and playback are not both active. *)
Definition exclusive (pg : Recorder.Page) : Prop :=
  Recorder.is_recording (Recorder.state pg) = true ->
  Player.is_playing (Recorder.player (Recorder.state pg)) = true -> False.





(** * Proofs *)

(** ** Rationals *)

Lemma Qltb_lt (a b : Q) : Qltb a b = true <-> (a < b)%Q.
Proof.
  unfold Qltb. rewrite negb_true_iff. split.
  - intros H. apply Qnot_le_lt. intros Hle.
    apply Qle_bool_iff in Hle. congruence.
  - intros H. destruct (Qle_bool b a) eqn:E; [|reflexivity].
    apply Qle_bool_iff in E. exfalso. exact (Qlt_not_le _ _ H E).
Qed.

Lemma Qltb_ge (a b : Q) : Qltb a b = false <-> (b <= a)%Q.
Proof.
  unfold Qltb. rewrite negb_false_iff. apply Qle_bool_iff.
Qed.

Lemma py_max_lower (a b : Q) : (b <= py_max a b)%Q.
Proof.
  unfold py_max. destruct (Qltb a b) eqn:E.
  - apply Qle_refl.
  - now apply Qltb_ge.
Qed.

Lemma py_max_left (a b : Q) : (b <= a)%Q -> py_max a b = a.
Proof.
  intros H. unfold py_max. apply Qltb_ge in H. now rewrite H.
Qed.

Lemma speed_divisor_pos (speed : Q) :
  (0 < py_max speed Player.speed_floor)%Q.
Proof.
  eapply Qlt_le_trans; [|apply py_max_lower]. reflexivity.
Qed.

Lemma wait_time_nonneg (t prev speed : Q) :
  (prev <= t)%Q -> (0 <= Player.wait_time t prev speed)%Q.
Proof.
  intros H. unfold Player.wait_time.
  apply Qle_shift_div_l; [apply speed_divisor_pos|].
  rewrite Qmult_0_l. unfold Qminus. now apply (proj1 (Qle_minus_iff prev t)).
Qed.

(** ** Traces *)

Lemma silent_app (a b : list Effect) :
  silent (a ++ b) = silent a && silent b.
Proof. unfold silent. apply forallb_app. Qed.

Lemma clean_app (a b : list Effect) : clean (a ++ b) = clean a && clean b.
Proof. unfold clean. apply forallb_app. Qed.

Lemma clean_outputs (outs : list Out) : clean (map Do outs) = true.
Proof. induction outs; simpl; auto. Qed.

Lemma silent_quiet (tr : list Effect) : silent tr = true -> quiet tr = true.
Proof.
  induction tr as [|e tr IH]; simpl; [reflexivity|].
  intros H. apply andb_true_iff in H as [He Htr].
  destruct e as [[|]| | | |]; simpl in *; auto; discriminate.
Qed.

Lemma quiet_app_clean (a b : list Effect) :
  clean a = true -> quiet (a ++ b) = quiet b.
Proof.
  induction a as [|e a IH]; simpl; [reflexivity|].
  intros H. apply andb_true_iff in H as [He Ha].
  destruct e as [[|]| | | |]; simpl in *; auto; discriminate.
Qed.

Lemma clean_quiet (a : list Effect) : clean a = true -> quiet a = true.
Proof.
  intros H. rewrite <- (app_nil_r a). now rewrite quiet_app_clean.
Qed.

Lemma quiet_app_silent (a b : list Effect) :
  quiet a = true -> silent b = true -> quiet (a ++ b) = true.
Proof.
  induction a as [|e a IH]; simpl; intros Ha Hb.
  - now apply silent_quiet.
  - destruct e as [[|]| | | |]; simpl in *; auto.
    rewrite silent_app, Ha, Hb. reflexivity.
Qed.

(** What [quiet] says about a trace cut at a read of the set flag. *)
Lemma quiet_after (tr tr1 tr2 : list Effect) :
  quiet tr = true -> tr = tr1 ++ Observe true :: tr2 -> silent tr2 = true.
Proof.
  intros Hq ->. induction tr1 as [|e tr1 IH]; simpl in Hq; [exact Hq|].
  destruct e as [[|]| | | |]; simpl in *; auto.
  rewrite silent_app in Hq. apply andb_true_iff in Hq as [_ Hq].
  simpl in Hq. exact Hq.
Qed.

Lemma silent_no_output (tr : list Effect) :
  silent tr = true -> outputs tr = [] /\ forallb (fun e => negb (is_output e)) tr = true.
Proof.
  induction tr as [|e tr IH]; simpl; [auto|].
  intros H. apply andb_true_iff in H as [He Htr].
  destruct (IH Htr) as [IH1 IH2].
  destruct e as [[|]| | | |]; simpl in *; try discriminate; auto.
Qed.

Lemma sleeps_at_app (site : SleepSite) (a b : list Effect) :
  sleeps_at site (a ++ b) = sleeps_at site a ++ sleeps_at site b.
Proof. unfold sleeps_at. apply flat_map_app. Qed.

(** ** The playback worker *)

Lemma has_payload_applies (ev : Player.Event) :
  has_payload ev = true -> Player.apply_event ev = Some (effect_of ev).
Proof.
  unfold has_payload, effect_of, Player.apply_event.
  destruct (String.eqb (Player.ev_type ev) "mouse_move");
    destruct (String.eqb (Player.ev_type ev) "mouse_down");
    destruct (String.eqb (Player.ev_type ev) "mouse_up");
    destruct (String.eqb (Player.ev_type ev) "mouse_scroll");
    destruct (String.eqb (Player.ev_type ev) "key_down");
    destruct (String.eqb (Player.ev_type ev) "key_up");
    destruct (Player.ev_button ev); destruct (Player.ev_key ev);
    simpl; intros H; try reflexivity; discriminate.
Qed.

Lemma play_events_uncancelled (speed : Q) (evs : list Player.Event) :
  forall (prev : Q) (tick : nat),
    nondecreasing_from prev (map Player.ev_t evs) ->
    forallb has_payload evs = true ->
    exists tk,
      Player.play_events (fun _ => false) speed evs prev tick
      = (Continue, tk, replay_pass speed prev evs).
Proof.
  induction evs as [|ev evs IH]; intros prev tick Hmono Hok.
  - exists tick. reflexivity.
  - destruct Hmono as [Hle Hmono]. simpl in Hok.
    apply andb_true_iff in Hok as [Hev Hok].
    destruct (IH (Player.ev_t ev) (S tick) Hmono Hok) as [tk Htk].
    exists tk. simpl.
    rewrite (proj2 (Qltb_ge _ _) (wait_time_nonneg _ _ speed Hle)).
    rewrite (has_payload_applies _ Hev), Htk.
    unfold replay_pass, replay_waits, prev_times. simpl.
    reflexivity.
Qed.

Lemma more_loops_finite (loops : Z) (idx : nat) :
  0 <= loops -> more_loops loops idx = (idx <? Z.to_nat loops)%nat.
Proof.
  intros H. unfold more_loops.
  destruct (loops =? -1) eqn:E; [lia|].
  destruct (Z.ltb_spec (Z.of_nat idx) loops);
    destruct (Nat.ltb_spec idx (Z.to_nat loops)); auto; lia.
Qed.

Lemma play_rounds_uncancelled (speed gap : Q) (loops : Z)
    (evs : list Player.Event) :
  0 <= loops ->
  nondecreasing_from 0 (map Player.ev_t evs) ->
  forallb has_payload evs = true ->
  forall (k idx tick fuel : nat),
    (idx + k = Z.to_nat loops)%nat -> (k < fuel)%nat ->
    exists tk,
      Player.play_rounds fuel (fun _ => false) speed loops gap evs idx tick
      = (Finished, tk, concat (map (replay_round speed gap evs) (seq (S idx) k))).
Proof.
  intros Hloops Hmono Hok.
  induction k as [|k IH]; intros idx tick fuel Hidx Hfuel;
    destruct fuel as [|fuel]; try lia; simpl.
  - rewrite more_loops_finite by assumption.
    destruct (Nat.ltb_spec idx (Z.to_nat loops)); [lia|].
    exists tick. reflexivity.
  - rewrite more_loops_finite by assumption.
    destruct (Nat.ltb_spec idx (Z.to_nat loops)); [|lia]. simpl.
    destruct (play_events_uncancelled speed evs 0 (S tick) Hmono Hok) as [tk1 H1].
    rewrite H1.
    destruct (IH (S idx) tk1 fuel ltac:(lia) ltac:(lia)) as [tk2 H2].
    rewrite H2. exists tk2. unfold replay_round at 2.
    simpl. rewrite <- !app_assoc. reflexivity.
Qed.

(** A run that is never cancelled, on a recording whose events do not
    raise: the rounds one after the other, then the end of the run. *)
Lemma play_loop_uncancelled (speed gap delay : Q) (loops : Z)
    (evs : list Player.Event) (fuel : nat) :
  0 <= loops ->
  nondecreasing_from 0 (map Player.ev_t evs) ->
  forallb has_payload evs = true ->
  (Z.to_nat loops < fuel)%nat ->
  Player.play_loop fuel (fun _ => false) speed loops gap delay evs
  = (Finished, replay_run speed (Z.to_nat loops) gap delay evs).
Proof.
  intros Hloops Hmono Hok Hfuel. unfold Player.play_loop.
  destruct (play_rounds_uncancelled speed gap loops evs Hloops Hmono Hok
              (Z.to_nat loops) 0%nat 0%nat fuel ltac:(lia) Hfuel) as [tk H].
  rewrite H. reflexivity.
Qed.

(** With [loops = -1] the loop never ends by itself: every unrolling stops
    with rounds still to come. *)
Lemma play_rounds_unbounded (speed gap : Q) (evs : list Player.Event) :
  nondecreasing_from 0 (map Player.ev_t evs) ->
  forallb has_payload evs = true ->
  forall (fuel idx tick : nat),
    exists tk,
      Player.play_rounds fuel (fun _ => false) speed (-1) gap evs idx tick
      = (OutOfFuel, tk, concat (map (replay_round speed gap evs) (seq (S idx) fuel))).
Proof.
  intros Hmono Hok. induction fuel as [|fuel IH]; intros idx tick; simpl.
  - exists tick. reflexivity.
  - destruct (play_events_uncancelled speed evs 0 (S tick) Hmono Hok) as [tk1 H1].
    rewrite H1. destruct (IH (S idx) tk1) as [tk2 H2]. rewrite H2.
    exists tk2. unfold replay_round at 2. simpl.
    rewrite <- !app_assoc. reflexivity.
Qed.

Lemma replay_waits_nonneg (speed : Q) (evs : list Player.Event) :
  forall prev : Q,
    nondecreasing_from prev (map Player.ev_t evs) ->
    Forall (fun w => (0 <= w)%Q) (replay_waits speed prev evs).
Proof.
  induction evs as [|ev evs IH]; intros prev Hmono; [constructor|].
  destruct Hmono as [Hle Hmono]. constructor.
  - now apply wait_time_nonneg.
  - apply (IH _ Hmono).
Qed.

Lemma stated_wait_agrees (t prev speed : Q) :
  (prev <= t)%Q -> (Player.speed_floor <= speed)%Q ->
  (Player.wait_time t prev speed == stated_wait t prev speed)%Q.
Proof.
  intros Hle Hfloor. unfold stated_wait.
  pose proof (wait_time_nonneg t prev speed Hle) as Hpos.
  unfold Player.wait_time in *. rewrite (py_max_left _ _ Hfloor) in *.
  unfold py_max. destruct (Qltb 0 ((t - prev) / speed)) eqn:E.
  - reflexivity.
  - apply Qltb_ge in E. now apply Qle_antisym.
Qed.

Lemma replay_waits_as_stated (speed : Q) (evs : list Player.Event) :
  (Player.speed_floor <= speed)%Q ->
  forall prev : Q,
    nondecreasing_from prev (map Player.ev_t evs) ->
    Forall2 Qeq (replay_waits speed prev evs)
      (zip_with (fun p ev => stated_wait (Player.ev_t ev) p speed)
         (prev_times prev evs) evs).
Proof.
  intros Hfloor. induction evs as [|ev evs IH]; intros prev Hmono; [constructor|].
  destruct Hmono as [Hle Hmono]. constructor.
  - now apply stated_wait_agrees.
  - apply (IH _ Hmono).
Qed.

Lemma outputs_app (a b : list Effect) : outputs (a ++ b) = outputs a ++ outputs b.
Proof. unfold outputs. apply flat_map_app. Qed.

Lemma outputs_Do (outs : list Out) : outputs (map Do outs) = outs.
Proof. induction outs as [|o outs IH]; simpl; [|rewrite IH]; reflexivity. Qed.

Lemma outputs_replay_pass (speed : Q) (evs : list Player.Event) :
  forall prev : Q, outputs (replay_pass speed prev evs) = flat_map effect_of evs.
Proof.
  induction evs as [|ev evs IH]; intros prev; [reflexivity|].
  unfold replay_pass, replay_waits, prev_times. simpl.
  rewrite outputs_app, outputs_Do. f_equal. apply (IH (Player.ev_t ev)).
Qed.

Lemma outputs_replay_rounds (speed gap : Q) (evs : list Player.Event)
    (rounds : list nat) :
  outputs (concat (map (replay_round speed gap evs) rounds))
  = concat (map (fun _ => flat_map effect_of evs) rounds).
Proof.
  induction rounds as [|i rounds IH]; [reflexivity|].
  simpl. rewrite outputs_app, IH. f_equal.
  rewrite outputs_app, outputs_replay_pass.
  destruct (Qltb 0 gap); simpl; now rewrite app_nil_r.
Qed.

Lemma outputs_replay_run (speed gap delay : Q) (n : nat)
    (evs : list Player.Event) :
  outputs (replay_run speed n gap delay evs)
  = concat (map (fun _ => flat_map effect_of evs) (seq 1 n)).
Proof.
  unfold replay_run. rewrite !outputs_app, outputs_replay_rounds.
  unfold replay_delay. destruct (Qltb 0 delay); simpl; now rewrite app_nil_r.
Qed.

Lemma gap_sleeps_replay_pass (speed : Q) (evs : list Player.Event) :
  forall prev : Q, sleeps_at GapSleep (replay_pass speed prev evs) = [].
Proof.
  induction evs as [|ev evs IH]; intros prev; [reflexivity|].
  unfold replay_pass, replay_waits, prev_times. simpl.
  rewrite sleeps_at_app.
  replace (sleeps_at GapSleep (map Do (effect_of ev))) with (@nil Q).
  - apply (IH (Player.ev_t ev)).
  - induction (effect_of ev); simpl; auto.
Qed.

Lemma gap_sleeps_replay_rounds (speed gap : Q) (evs : list Player.Event)
    (rounds : list nat) :
  Qltb 0 gap = true ->
  sleeps_at GapSleep (concat (map (replay_round speed gap evs) rounds))
  = repeat gap (length rounds).
Proof.
  intros Hgap. induction rounds as [|i rounds IH]; [reflexivity|].
  simpl. rewrite sleeps_at_app, IH. unfold replay_round. simpl.
  rewrite sleeps_at_app, gap_sleeps_replay_pass, Hgap. reflexivity.
Qed.

Lemma play_events_trace (flag : nat -> bool) (speed : Q)
    (evs : list Player.Event) :
  forall (prev : Q) (tick : nat) (fl : Flow) (tk : nat) (tr : list Effect),
    Player.play_events flag speed evs prev tick = (fl, tk, tr) ->
    quiet tr = true /\ (fl = Continue -> clean tr = true).
Proof.
  induction evs as [|ev evs IH]; intros prev tick fl tk tr; simpl.
  - intros [= <- <- <-]. auto.
  - destruct (flag tick); [intros [= <- <- <-]; split; [reflexivity|discriminate]|].
    destruct (Qltb _ 0); [intros [= <- <- <-]; split; [reflexivity|discriminate]|].
    destruct (Player.apply_event ev) as [outs|];
      [|intros [= <- <- <-]; split; [reflexivity|discriminate]].
    destruct (Player.play_events flag speed evs (Player.ev_t ev) (S tick))
      as [[fl' tk'] tr'] eqn:E.
    intros [= <- <- <-]. destruct (IH _ _ _ _ _ E) as [Hq Hc]. simpl. split.
    + now rewrite quiet_app_clean by apply clean_outputs.
    + intros ->. rewrite clean_app, clean_outputs. now apply Hc.
Qed.

Lemma play_rounds_quiet (flag : nat -> bool) (speed gap : Q) (loops : Z)
    (evs : list Player.Event) :
  forall (fuel idx tick : nat) (ex : Exit) (tk : nat) (tr : list Effect),
    Player.play_rounds fuel flag speed loops gap evs idx tick = (ex, tk, tr) ->
    quiet tr = true.
Proof.
  induction fuel as [|fuel IH]; intros idx tick ex tk tr; simpl.
  - intros [= <- <- <-]. reflexivity.
  - destruct (negb (more_loops loops idx)); [intros [= <- <- <-]; reflexivity|].
    destruct (flag tick); [intros [= <- <- <-]; reflexivity|].
    destruct (Player.play_events flag speed evs 0 (S tick))
      as [[fl tk1] tr1] eqn:E1.
    destruct (play_events_trace _ _ _ _ _ _ _ _ E1) as [Hq Hc].
    destruct fl; [|intros [= <- <- <-]; exact Hq..].
    destruct (Player.play_rounds fuel flag speed loops gap evs (S idx) tk1)
      as [[ex2 tk2] tr2] eqn:E2.
    intros [= <- <- <-]. simpl.
    rewrite quiet_app_clean by now apply Hc.
    simpl. destruct (Qltb 0 gap); simpl; apply (IH _ _ _ _ _ E2).
Qed.

Lemma play_loop_quiet (fuel : nat) (flag : nat -> bool) (speed gap delay : Q)
    (loops : Z) (evs : list Player.Event) :
  quiet (snd (Player.play_loop fuel flag speed loops gap delay evs)) = true.
Proof.
  unfold Player.play_loop.
  destruct (Player.play_rounds fuel flag speed loops gap evs 0 0)
    as [[ex tk] tr] eqn:E. simpl.
  rewrite quiet_app_clean by (destruct (Qltb 0 delay); reflexivity).
  apply quiet_app_silent; [apply (play_rounds_quiet _ _ _ _ _ _ _ _ _ _ _ E)|].
  destruct ex; reflexivity.
Qed.

(** ** The click-loop worker and the page operations *)

Lemma load_markers_runner (es : list Clicker.MarkerEntry) :
  forall p : Clicker.ClickerPage,
    Clicker.runner (fst (Clicker.load_markers es p)) = Clicker.runner p.
Proof.
  induction es as [|e es IH]; intros p; [reflexivity|].
  cbn [Clicker.load_markers].
  set (q := Clicker.add_marker p).
  assert (Hq : Clicker.runner q = Clicker.runner p) by reflexivity.
  destruct (last (Clicker.markers q)) as [l|]; [|exact Hq].
  destruct (Clicker.heap q !! l) as [mm|]; [|exact Hq].
  destruct (Clicker.fill_marker e mm) as [mm' ok].
  destruct ok; [rewrite IH|]; exact Hq.
Qed.

(** Only [toggle_start] and the runner's own methods touch the runner. *)
Lemma apply_op_runner (op : Clicker.PageOp) (p : Clicker.ClickerPage) :
  match op with
  | Clicker.OpToggleStart | Clicker.OpRunnerStart _ _ | Clicker.OpRunnerStop => True
  | _ => Clicker.runner (Clicker.apply_op op p) = Clicker.runner p
  end.
Proof.
  destruct op; simpl; auto.
  - unfold Clicker.on_marker_move.
    destruct (Clicker.marker_at (mid - 1) p); reflexivity.
  - unfold Clicker.on_marker_close.
    destruct (py_index (mid - 1) (length (Clicker.markers p))); reflexivity.
  - unfold Clicker.commit_editor.
    destruct (Clicker.marker_at idx p); [|reflexivity].
    destruct col; try reflexivity; destruct (Clicker.ed_float v); reflexivity.
  - unfold Clicker.load_config_file.
    match goal with |- context [Clicker.load_markers ?es ?q] =>
      pose proof (load_markers_runner es q) as H;
      destruct (Clicker.load_markers es q) as [p' ok] end.
    simpl in H. destruct ok; simpl; exact H.
  - unfold Clicker.import_state.
    match goal with |- context [Clicker.load_markers ?es ?q] =>
      pose proof (load_markers_runner es q) as H;
      destruct (Clicker.load_markers es q) as [p' ok] end.
    simpl in H. destruct ok; simpl; exact H.
Qed.

(** While a worker runs ([_is_running] is set), nothing the main thread
    does clears the stop flag: [start] returns before [clear()]. *)
Lemma apply_op_keeps_flag (op : Clicker.PageOp) (p : Clicker.ClickerPage) :
  Clicker.is_running (Clicker.runner p) = true ->
  Clicker.is_running (Clicker.runner (Clicker.apply_op op p)) = true
  /\ (Clicker.stop_event (Clicker.runner p) = true ->
      Clicker.stop_event (Clicker.runner (Clicker.apply_op op p)) = true).
Proof.
  intros Hrun. pose proof (apply_op_runner op p) as H.
  destruct op; try (rewrite H; auto); simpl.
  - unfold Clicker.toggle_start. rewrite Hrun. simpl. auto.
  - unfold Clicker.runner_start. destruct ms; simpl; [auto|].
    rewrite Hrun. simpl. auto.
  - auto.
Qed.

Lemma apply_ops_keeps_flag (ops : list Clicker.PageOp) :
  forall p : Clicker.ClickerPage,
    Clicker.is_running (Clicker.runner p) = true ->
    Clicker.is_running (Clicker.runner (Clicker.apply_ops ops p)) = true
    /\ (Clicker.stop_event (Clicker.runner p) = true ->
        Clicker.stop_event (Clicker.runner (Clicker.apply_ops ops p)) = true).
Proof.
  induction ops as [|op ops IH]; intros p Hrun; [auto|].
  destruct (apply_op_keeps_flag op p Hrun) as [H1 H2].
  destruct (IH _ H1) as [H3 H4]. simpl. auto.
Qed.

Lemma page_at_running (sched : nat -> list Clicker.PageOp)
    (p : Clicker.ClickerPage) :
  Clicker.is_running (Clicker.runner p) = true ->
  forall k, Clicker.is_running (Clicker.runner (Clicker.page_at sched p k)) = true.
Proof.
  intros Hrun. induction k as [|k IH]; simpl;
    now apply apply_ops_keeps_flag.
Qed.

Lemma page_at_flag_stays (sched : nat -> list Clicker.PageOp)
    (p : Clicker.ClickerPage) :
  Clicker.is_running (Clicker.runner p) = true ->
  forall k,
    Clicker.sh_stop (Clicker.shared_of (Clicker.page_at sched p k)) = true ->
    Clicker.sh_stop (Clicker.shared_of (Clicker.page_at sched p (S k))) = true.
Proof.
  intros Hrun k. simpl.
  apply apply_ops_keeps_flag. now apply page_at_running.
Qed.

Section FlagStays.

Variable env : nat -> Clicker.Shared.
Hypothesis env_stays :
  forall k, Clicker.sh_stop (env k) = true -> Clicker.sh_stop (env (S k)) = true.

Lemma click_markers_trace (ms : list nat) :
  forall (tick : nat) (fl : Flow) (tk : nat) (tr : list Effect),
    Clicker.click_markers env ms tick = (fl, tk, tr) ->
    match fl with
    | Break =>
      exists pre, tr = pre ++ [Observe true] /\ clean pre = true
                  /\ Clicker.sh_stop (env tk) = true
    | _ => clean tr = true
    end.
Proof.
  induction ms as [|l ms IH]; intros tick fl tk tr; simpl.
  - intros [= <- <- <-]. reflexivity.
  - destruct (Clicker.sh_stop (env tick)) eqn:Hstop.
    { intros [= <- <- <-]. exists []. auto. }
    destruct (Clicker.sh_heap (env tick) !! l) as [m|];
      [|intros [= <- <- <-]; reflexivity].
    destruct (Clicker.click_markers env ms (S tick)) as [[fl' tk'] tr'] eqn:E.
    intros [= <- <- <-]. specialize (IH _ _ _ _ E).
    destruct fl'; simpl; auto.
    destruct IH as (pre & -> & Hpre & Hstop').
    eexists (_ :: _ :: _ :: _ :: _ :: pre). simpl. auto.
Qed.

Lemma click_rounds_stopped (loops : Z) (ms : list nat) :
  forall (fuel idx tick : nat) (ex : Exit) (tk : nat) (tr : list Effect),
    Clicker.sh_stop (env tick) = true ->
    Clicker.click_rounds fuel env loops ms idx tick = (ex, tk, tr) ->
    silent tr = true.
Proof.
  intros [|fuel] idx tick ex tk tr Hstop; simpl.
  - intros [= <- <- <-]. reflexivity.
  - destruct (negb (more_loops loops idx)); [intros [= <- <- <-]; reflexivity|].
    rewrite Hstop. intros [= <- <- <-]. reflexivity.
Qed.

Lemma click_rounds_quiet (loops : Z) (ms : list nat) :
  forall (fuel idx tick : nat) (ex : Exit) (tk : nat) (tr : list Effect),
    Clicker.click_rounds fuel env loops ms idx tick = (ex, tk, tr) ->
    quiet tr = true.
Proof.
  induction fuel as [|fuel IH]; intros idx tick ex tk tr; simpl.
  - intros [= <- <- <-]. reflexivity.
  - destruct (negb (more_loops loops idx)); [intros [= <- <- <-]; reflexivity|].
    destruct (Clicker.sh_stop (env tick)); [intros [= <- <- <-]; reflexivity|].
    destruct (Clicker.click_markers env ms (S tick)) as [[fl tk1] tr1] eqn:E1.
    pose proof (click_markers_trace _ _ _ _ _ E1) as H1.
    destruct fl.
    + destruct (Clicker.click_rounds fuel env loops ms (S idx) tk1)
        as [[ex2 tk2] tr2] eqn:E2.
      intros [= <- <- <-]. simpl. rewrite quiet_app_clean by exact H1.
      simpl. apply (IH _ _ _ _ _ E2).
    + destruct (Clicker.click_rounds fuel env loops ms (S idx) tk1)
        as [[ex2 tk2] tr2] eqn:E2.
      intros [= <- <- <-]. destruct H1 as (pre & -> & Hpre & Hstop).
      simpl. rewrite <- app_assoc, quiet_app_clean by exact Hpre.
      simpl. apply (click_rounds_stopped _ _ _ _ _ _ _ _ Hstop E2).
    + intros [= <- <- <-]. simpl. now apply clean_quiet.
Qed.

Lemma worker_quiet (fuel : nat) (cfg : Clicker.ClickConfig) (ms : list nat) :
  quiet (snd (Clicker.worker fuel env cfg ms)) = true.
Proof.
  unfold Clicker.worker.
  destruct (Clicker.click_rounds fuel env (Clicker.cfg_loops cfg) ms 0 0)
    as [[ex tk] tr] eqn:E. simpl.
  rewrite quiet_app_clean by (destruct (Qltb 0 (Clicker.cfg_delay cfg)); reflexivity).
  apply quiet_app_silent; [apply (click_rounds_quiet _ _ _ _ _ _ _ _ E)|].
  destruct ex; reflexivity.
Qed.

End FlagStays.

Lemma run_from_quiet (fuel : nat) (sched : nat -> list Clicker.PageOp)
    (p0 : Clicker.ClickerPage) (ex : Exit) (tr : list Effect) :
  Clicker.run_from fuel sched p0 = Some (ex, tr) -> quiet tr = true.
Proof.
  unfold Clicker.run_from.
  destruct (Clicker.is_running (Clicker.runner p0)); [discriminate|].
  destruct (Clicker.is_running (Clicker.runner (Clicker.toggle_start p0))) eqn:Hrun;
    [|discriminate].
  destruct (last _) as [t|]; [|discriminate].
  intros [= H].
  pose proof (worker_quiet _ (page_at_flag_stays sched _ Hrun) fuel
                (Clicker.task_cfg t) (Clicker.task_markers t)) as Hq.
  rewrite H in Hq. exact Hq.
Qed.

(** * The specification's statements *)

(** ** Playback *)

(** C8. [start_playback] fails with "no data" on an empty recording and
    with "already running" while a playback is in progress, both times
    leaving the player as it was (nothing launched, playing state
    untouched); otherwise it returns success at once, having taken a
    snapshot of the events, set the playing state and launched exactly one
    background task on that snapshot. *)
Theorem start_playback_outcomes (speed gap delay : Q) (loops : Z)
    (p : Player.RecorderPlayer) :
  let '(result, p') := Player.start_playback speed loops gap delay p in
  match Player.recording p, Player.is_playing p with
  | [], _ => result = (false, MsgNoData) /\ p' = p
  | _ :: _, true => result = (false, MsgAlreadyPlaying) /\ p' = p
  | _ :: _, false =>
    result = (true, MsgPlaybackStarted)
    /\ Player.is_playing p' = true
    /\ Player.stop_play_event p' = false
    /\ Player.recording p' = Player.recording p
    /\ Player.player_log p' = Player.player_log p ++ [MsgPlaybackStarted]
    /\ Player.threads p'
       = Player.threads p
         ++ [ {| Player.task_events := Player.recording p;
                 Player.task_speed := speed; Player.task_loops := loops;
                 Player.task_gap := gap; Player.task_delay := delay |} ]
  end.
Proof.
  unfold Player.start_playback.
  destruct (Player.recording p) as [|ev evs] eqn:Hrec; [auto|].
  destruct (Player.is_playing p); simpl; auto 10.
Qed.

(** C1, as amended.  For every non-empty recording whose timestamps start
    at or after 0 and never decrease and whose button and key events carry
    their button and key, every speed > 0 and every loop count [loops >= 0],
    a playback that is not cancelled ends normally and its effects are, for
    each round in turn, every event of the snapshot in recorded order, each
    preceded by a suspension of [(t - prev_t) / max(speed, 1e-9)] with
    [prev_t] starting at 0 in each round and set to the event's timestamp
    after it is applied.  These suspensions are never negative (the code
    does not clamp them), and for [speed >= 1e-9] they are the stated
    [(t - prev_t) / speed] clamped to [>= 0]. *)
Theorem play_loop_replays_in_order (evs : list Player.Event)
    (speed gap delay : Q) (loops : Z) (fuel : nat) :
  evs <> [] ->
  nondecreasing_from 0 (map Player.ev_t evs) ->
  forallb has_payload evs = true ->
  (0 < speed)%Q ->
  0 <= loops ->
  (Z.to_nat loops < fuel)%nat ->
  Player.play_loop fuel (fun _ => false) speed loops gap delay evs
  = (Finished, replay_run speed (Z.to_nat loops) gap delay evs)
  /\ outputs (replay_run speed (Z.to_nat loops) gap delay evs)
     = concat (map (fun _ => flat_map effect_of evs) (seq 1 (Z.to_nat loops)))
  /\ Forall (fun w => (0 <= w)%Q) (replay_waits speed 0 evs)
  /\ ((Player.speed_floor <= speed)%Q ->
      Forall2 Qeq (replay_waits speed 0 evs)
        (zip_with (fun prev ev => stated_wait (Player.ev_t ev) prev speed)
           (prev_times 0 evs) evs)).
Proof.
  intros _ Hmono Hok _ Hloops Hfuel. repeat split.
  - now apply play_loop_uncancelled.
  - apply outputs_replay_run.
  - now apply replay_waits_nonneg.
  - intros Hfloor. now apply replay_waits_as_stated.
Qed.

Lemma play_loop_replays_in_order_witness :
  Player.play_loop 2 (fun _ => false) 2 1 0 0 press_release
  = (Finished, replay_run 2 1 0 0 press_release)
  /\ outputs (replay_run 2 1 0 0 press_release)
     = concat (map (fun _ => flat_map effect_of press_release) (seq 1 1))
  /\ Forall (fun w => (0 <= w)%Q) (replay_waits 2 0 press_release)
  /\ ((Player.speed_floor <= 2)%Q ->
      Forall2 Qeq (replay_waits 2 0 press_release)
        (zip_with (fun prev ev => stated_wait (Player.ev_t ev) prev 2)
           (prev_times 0 press_release) press_release)).
Proof.
  apply (play_loop_replays_in_order press_release 2 0 0 1 2).
  - discriminate.
  - simpl. split; [|split; [|exact I]]; unfold Qle; simpl; lia.
  - reflexivity.
  - reflexivity.
  - lia.
  - simpl. lia.
Defined.

(** C1 as stated fails below the floor of the divisor: at a speed of
    [1e-10] the event recorded at 1 s is preceded by a suspension of
    [1 / 1e-9] seconds, not of the stated [1 / 1e-10]. *)
Lemma stated_wait_fails_below_floor :
  one_move <> []
  /\ nondecreasing_from 0 (map Player.ev_t one_move)
  /\ (0 < crawl)%Q
  /\ sleeps_at EventWait
       (snd (Player.play_loop 2 (fun _ => false) crawl 1 0 0 one_move))
     = [Player.wait_time 1 0 crawl]
  /\ (Player.wait_time 1 0 crawl == 1000000000)%Q
  /\ (stated_wait 1 0 crawl == 10000000000)%Q
  /\ ~ (Player.wait_time 1 0 crawl == stated_wait 1 0 crawl)%Q.
Proof.
  repeat split; try discriminate; reflexivity.
Qed.

(** Outside the hypotheses of [play_loop_replays_in_order] the worker
    stops on an exception: [time.sleep] refuses a negative length, and a
    button event without a button cannot be tested for "left".  The event
    is then not applied. *)
Lemma play_loop_raises_on_malformed_events :
  Player.play_loop 2 (fun _ => false) 1 1 0 0 early_move
  = (Raised, [Observe false; Log (MsgLoopBegin 1); Observe false; OnEnd])
  /\ Player.play_loop 2 (fun _ => false) 1 1 0 0 press_without_button
     = (Raised, [Observe false; Log (MsgLoopBegin 1); Observe false;
                 Sleep EventWait (Player.wait_time 0 0 1); OnEnd]).
Proof. split; reflexivity. Qed.

(** C7, what the code does.  With a gap > 0 and [loops >= 1] rounds, a
    playback that is not cancelled suspends for the gap after every round,
    the last one included: [loops] times, and the run ends with the end of
    the last round, a gap suspension, and only then the completion line. *)
Theorem gap_sleep_follows_every_round (evs : list Player.Event)
    (speed gap delay : Q) (loops : Z) (fuel : nat) :
  nondecreasing_from 0 (map Player.ev_t evs) ->
  forallb has_payload evs = true ->
  (0 < gap)%Q ->
  1 <= loops ->
  (Z.to_nat loops < fuel)%nat ->
  exists tr pre,
    Player.play_loop fuel (fun _ => false) speed loops gap delay evs
    = (Finished, tr)
    /\ sleeps_at GapSleep tr = repeat gap (Z.to_nat loops)
    /\ tr = pre ++ [Log (MsgLoopEnd (Z.to_nat loops)); Sleep GapSleep gap;
                    Log MsgPlaybackDone; OnEnd].
Proof.
  intros Hmono Hok Hgap Hloops Hfuel.
  apply Qltb_lt in Hgap.
  exists (replay_run speed (Z.to_nat loops) gap delay evs).
  destruct (Z.to_nat loops) as [|n] eqn:Hn; [lia|].
  exists (replay_delay delay
            ++ concat (map (replay_round speed gap evs) (seq 1 n))
            ++ Observe false :: Log (MsgLoopBegin (S n))
               :: replay_pass speed 0 evs).
  split; [|split].
  - rewrite <- Hn. apply play_loop_uncancelled; auto; lia.
  - unfold replay_run. rewrite !sleeps_at_app, gap_sleeps_replay_rounds by exact Hgap.
    rewrite length_seq. unfold replay_delay.
    destruct (Qltb 0 delay); simpl; now rewrite app_nil_r.
  - unfold replay_run. rewrite seq_S, map_app, concat_app.
    set (rounds := concat (map _ (seq 1 n))).
    cbn [map concat Nat.add]. unfold replay_round. rewrite Hgap, app_nil_r.
    rewrite <- !app_assoc. cbn [app]. rewrite <- !app_assoc. reflexivity.
Qed.

Lemma gap_sleep_follows_every_round_witness :
  exists tr pre,
    Player.play_loop 3 (fun _ => false) 1 2 1 0 press_release = (Finished, tr)
    /\ sleeps_at GapSleep tr = repeat 1%Q (Z.to_nat 2)
    /\ tr = pre ++ [Log (MsgLoopEnd (Z.to_nat 2)); Sleep GapSleep 1;
                    Log MsgPlaybackDone; OnEnd].
Proof.
  apply (gap_sleep_follows_every_round press_release 1 1 0 2 3).
  - simpl. split; [|split; [|exact I]]; unfold Qle; simpl; lia.
  - reflexivity.
  - reflexivity.
  - lia.
  - simpl. lia.
Defined.

(** ** Cancellation *)

(** C2. In every playback run and every click-loop run, whatever the main
    thread does meanwhile, once a read of the cancellation flag has found it
    set no output action follows, however many events, markers or loops
    remained: all that follows is the end of the round and of the run.  In
    the click-loop the [break] leaves the round and the loop condition then
    ends the run, no further round starts. *)
Theorem cancellation_stops_outputs (r : Run) (tr tr1 tr2 : list Effect) :
  run_trace r = Some tr ->
  tr = tr1 ++ Observe true :: tr2 ->
  silent tr2 = true /\ outputs tr2 = []
  /\ forallb (fun e => negb (is_output e)) tr2 = true.
Proof.
  intros Hrun Hcut.
  assert (Hq : quiet tr = true).
  { destruct r as [fuel flag speed loops gap delay evs | fuel sched p0];
      simpl in Hrun.
    - injection Hrun as <-. apply play_loop_quiet.
    - destruct (Clicker.run_from fuel sched p0) as [[ex tr']|] eqn:E;
        [|discriminate].
      injection Hrun as <-. apply (run_from_quiet _ _ _ _ _ E). }
  pose proof (quiet_after _ _ _ Hq Hcut) as Hs.
  split; [exact Hs|]. now apply silent_no_output.
Qed.

Lemma cancellation_stops_outputs_witness :
  silent [Log (MsgRoundEnd 1); Observe true; Log MsgClickDone; OnEnd] = true
  /\ outputs [Log (MsgRoundEnd 1); Observe true; Log MsgClickDone; OnEnd] = []
  /\ forallb (fun e => negb (is_output e))
       [Log (MsgRoundEnd 1); Observe true; Log MsgClickDone; OnEnd] = true.
Proof.
  apply (cancellation_stops_outputs
           (ClickRun 5 stop_after_first_click two_markers)
           [Observe false; Log (MsgRoundBegin 1); Observe false;
            Do (SetPosition (Some 5) (Some 5)); Do (ClickButton ButtonLeft 1);
            Log (MsgClicked 1 "left" 5 5); Sleep MarkerWait (2 # 10);
            Observe true; Log (MsgRoundEnd 1); Observe true;
            Log MsgClickDone; OnEnd]
           [Observe false; Log (MsgRoundBegin 1); Observe false;
            Do (SetPosition (Some 5) (Some 5)); Do (ClickButton ButtonLeft 1);
            Log (MsgClicked 1 "left" 5 5); Sleep MarkerWait (2 # 10)]).
  - vm_compute. reflexivity.
  - vm_compute. reflexivity.
Defined.

(** ** The click-loop *)

(** C5, what the code does.  [toggle_start] hands the worker a copy of the
    list, not of the [Marker] objects in it.  With the two markers
    (5, 5, left) and (50, 50, right) and two loops: left alone, the run
    clicks at (5, 5), (50, 50), (5, 5), (50, 50); when the editor sets the
    first marker's X to 100 after the first round, the same run clicks at
    (100, 5) in its second round.  Removing and adding markers meanwhile
    does not change where it clicks. *)
Theorem snapshot_shares_marker_objects :
  option_map outputs (run_trace (ClickRun 5 idle two_markers))
  = Some [ SetPosition (Some 5) (Some 5); ClickButton ButtonLeft 1;
           SetPosition (Some 50) (Some 50); ClickButton ButtonRight 1;
           SetPosition (Some 5) (Some 5); ClickButton ButtonLeft 1;
           SetPosition (Some 50) (Some 50); ClickButton ButtonRight 1 ]
  /\ option_map outputs (run_trace (ClickRun 5 move_first_marker two_markers))
     = Some [ SetPosition (Some 5) (Some 5); ClickButton ButtonLeft 1;
              SetPosition (Some 50) (Some 50); ClickButton ButtonRight 1;
              SetPosition (Some 100) (Some 5); ClickButton ButtonLeft 1;
              SetPosition (Some 50) (Some 50); ClickButton ButtonRight 1 ]
  /\ option_map outputs (run_trace (ClickRun 5 replace_second_marker two_markers))
     = option_map outputs (run_trace (ClickRun 5 idle two_markers)).
Proof. split; [|split]; vm_compute; reflexivity. Qed.

(** C9, what the code does.  [ClickRunner.start] on a non-empty marker
    list while a run is in progress returns [False] without passing any line
    to the logger and without touching the runner; on an empty list it logs
    that there are no markers. *)
Theorem runner_start_while_running_logs_nothing (ms : list nat)
    (cfg : Clicker.ClickConfig) (r : Clicker.ClickRunner) :
  ms <> [] ->
  Clicker.is_running r = true ->
  Clicker.runner_start ms cfg r = (false, [], r)
  /\ Clicker.runner_start [] cfg r = (false, [MsgNoMarkers], r).
Proof.
  intros Hms Hrun. unfold Clicker.runner_start.
  destruct ms; [congruence|]. now rewrite Hrun.
Qed.

Lemma runner_start_while_running_logs_nothing_witness :
  Clicker.runner_start [0%nat; 1%nat]
    {| Clicker.cfg_loops := 2; Clicker.cfg_delay := 0 |}
    (Clicker.runner (Clicker.toggle_start two_markers))
  = (false, [], Clicker.runner (Clicker.toggle_start two_markers))
  /\ Clicker.runner_start []
       {| Clicker.cfg_loops := 2; Clicker.cfg_delay := 0 |}
       (Clicker.runner (Clicker.toggle_start two_markers))
     = (false, [MsgNoMarkers], Clicker.runner (Clicker.toggle_start two_markers)).
Proof.
  apply (runner_start_while_running_logs_nothing [0%nat; 1%nat]
           {| Clicker.cfg_loops := 2; Clicker.cfg_delay := 0 |}
           (Clicker.runner (Clicker.toggle_start two_markers)));
    [discriminate | vm_compute; reflexivity].
Defined.

Lemma renumber_click_fields (ms : list nat) :
  forall (h : gmap nat Clicker.Marker) (i : Z) (l : nat),
    click_fields <$> (Clicker.renumber h ms i !! l) = click_fields <$> (h !! l).
Proof.
  induction ms as [|l' ms IH]; intros h i l; simpl; [reflexivity|].
  rewrite IH, lookup_alter. case_decide; [subst|reflexivity].
  destruct (h !! l); reflexivity.
Qed.

Lemma click_wait_bounds (q : Q) :
  (Clicker.interval_floor <= Clicker.click_wait q)%Q
  /\ (Clicker.click_wait q <= Clicker.interval_ceiling)%Q.
Proof.
  unfold Clicker.click_wait, py_max, py_min.
  destruct (Qltb q Clicker.interval_ceiling) eqn:E1.
  - destruct (Qltb Clicker.interval_floor q) eqn:E2.
    + apply Qltb_lt in E1, E2. split; now apply Qlt_le_weak.
    + split; [apply Qle_refl | discriminate].
  - split; [discriminate | apply Qle_refl].
Qed.

Lemma click_markers_wait (env : nat -> Clicker.Shared) (l : nat)
    (rest : list nat) (tick : nat) (m : Clicker.Marker) :
  Clicker.sh_stop (env tick) = false ->
  Clicker.sh_heap (env tick) !! l = Some m ->
  sleeps_at MarkerWait (snd (Clicker.click_markers env (l :: rest) tick))
  = Clicker.click_wait (Clicker.m_interval m)
    :: sleeps_at MarkerWait (snd (Clicker.click_markers env rest (S tick))).
Proof.
  intros Hstop Hm. simpl. rewrite Hstop, Hm.
  destruct (Clicker.click_markers env rest (S tick)) as [[fl tk] tr].
  reflexivity.
Qed.

(** C6, as amended.  The cell editor clamps an interval from below only: a
    value under 0.01 is stored as 0.01, any other value as it is.  Loading
    a marker list stores the interval as given.  The clamp into
    [0.01, 5.0] is applied by the worker when it suspends after a click:
    for a stored interval [q] it waits [max(0.01, min(5.0, q))], so a
    stored 0.0001 gives a wait of 0.01 and a stored 9.0 a wait of 5.0. *)
Theorem interval_clamped_when_used (p : Clicker.ClickerPage) (idx : Z)
    (l : nat) (m : Clicker.Marker) (text : string) (q : Q) :
  Clicker.marker_at idx p = Some l ->
  Clicker.heap p !! l = Some m ->
  Clicker.m_interval
    <$> (Clicker.heap
           (Clicker.commit_editor idx Clicker.ColInterval
              {| Clicker.ed_text := text; Clicker.ed_float := Some q |} p) !! l)
  = Some (if Qltb q Clicker.interval_floor then Clicker.interval_floor else q)
  /\ (forall (x y : Field Z) (b : option string) (mm : Clicker.Marker),
        x <> Unusable -> y <> Unusable ->
        exists mm',
          Clicker.fill_marker (Clicker.MarkerDict x y b (Given q)) mm = (mm', true)
          /\ Clicker.m_interval mm' = q)
  /\ (forall (env : nat -> Clicker.Shared) (rest : list nat) (tick : nat)
             (m' : Clicker.Marker),
        Clicker.sh_stop (env tick) = false ->
        Clicker.sh_heap (env tick) !! l = Some m' ->
        Clicker.m_interval m' = q ->
        sleeps_at MarkerWait (snd (Clicker.click_markers env (l :: rest) tick))
        = Clicker.click_wait q
          :: sleeps_at MarkerWait (snd (Clicker.click_markers env rest (S tick))))
  /\ (Clicker.interval_floor <= Clicker.click_wait q)%Q
  /\ (Clicker.click_wait q <= Clicker.interval_ceiling)%Q
  /\ Clicker.click_wait (1 # 10000) = (1 # 100)%Q
  /\ Clicker.click_wait 9 = 5%Q.
Proof.
  intros Hat Hm. split; [|split; [|split; [|split; [|split; [|split]]]]].
  - unfold Clicker.commit_editor. rewrite Hat. cbn [Clicker.ed_float].
    unfold Clicker.refresh. cbn [Clicker.heap Clicker.set_heap Clicker.markers].
    pose proof (renumber_click_fields (Clicker.markers p)
                  (alter (Clicker.set_interval
                            (if Qltb q Clicker.interval_floor
                             then Clicker.interval_floor else q)) l (Clicker.heap p))
                  1 l) as H.
    rewrite lookup_alter_eq, Hm in H.
    destruct (Clicker.renumber _ _ _ !! l) as [m1|]; [|discriminate].
    unfold click_fields in H. simpl in H. simpl. f_equal. congruence.
  - intros x y b mm Hx Hy.
    destruct x; try congruence; destruct y; try congruence;
      simpl; eexists; (split; [reflexivity|reflexivity]).
  - intros env rest tick m' Hstop Hm' <-. now apply click_markers_wait.
  - apply click_wait_bounds.
  - apply click_wait_bounds.
  - reflexivity.
  - reflexivity.
Qed.

Lemma interval_clamped_when_used_witness :
  Clicker.m_interval
    <$> (Clicker.heap
           (Clicker.commit_editor 0 Clicker.ColInterval
              {| Clicker.ed_text := "0.001"; Clicker.ed_float := Some (1 # 1000)%Q |}
              two_markers) !! 0%nat)
  = Some (1 # 100)%Q.
Proof.
  apply (interval_clamped_when_used two_markers 0 0%nat
           {| Clicker.m_id := 1; Clicker.m_x := 5; Clicker.m_y := 5;
              Clicker.m_button := "left"; Clicker.m_interval := 2 # 10 |}
           "0.001" (1 # 1000)%Q); vm_compute; reflexivity.
Defined.

(** C6 as stated fails: an interval of 9.0 committed in the editor is
    stored as 9.0, and an interval of 0.0001 read by [load_config_file] is
    stored as 0.0001. *)
Lemma stored_interval_not_clamped :
  Clicker.m_interval
    <$> (Clicker.heap
           (Clicker.commit_editor 0 Clicker.ColInterval (number "9.0" 9)
              two_markers) !! 0%nat)
  = Some 9%Q
  /\ ~ (9 == 5)%Q
  /\ (exists p,
        Clicker.load_config_file tiny_interval_doc two_markers = inl p
        /\ Clicker.markers p = [2%nat]
        /\ Clicker.m_interval <$> (Clicker.heap p !! 2%nat)
           = Some (1 # 10000)%Q)
  /\ ~ (1 # 10000 == 1 # 100)%Q.
Proof.
  split; [vm_compute; reflexivity|].
  split; [discriminate|].
  split; [|discriminate].
  eexists. split; [|split]; vm_compute; reflexivity.
Qed.

(** C10, what the code does.  [load_from_file] builds the whole list of
    events before it assigns it: when an element is malformed the player is
    left as it was.  [load_config_file] clears the markers and sets the
    parameters before it reads the marker entries, and creates each marker
    before it converts the entry's fields: on the document whose only
    marker has an unusable ["y"], the load raises and leaves the page
    without its two markers, with the loop count of the document, and with
    one new marker at the document's X and the default Y. *)
Theorem load_config_file_not_atomic :
  (forall (data : list Player.EventEntry) (pl : Player.RecorderPlayer),
     match Player.load_from_file data pl with
     | inr pl' => pl' = pl
     | inl pl' => Some (Player.recording pl') = Player.make_events data
     end)
  /\ (forall pl : Player.RecorderPlayer,
        Player.load_from_file bad_recording_doc pl = inr pl)
  /\ (exists p',
        Clicker.load_config_file bad_marker_doc two_markers = inr p'
        /\ Clicker.markers two_markers = [0%nat; 1%nat]
        /\ Clicker.var_loops two_markers = 2
        /\ Clicker.markers p' = [2%nat]
        /\ Clicker.var_loops p' = 7
        /\ Clicker.heap p' !! 2%nat
           = Some {| Clicker.m_id := 1; Clicker.m_x := 1; Clicker.m_y := 0;
                     Clicker.m_button := "left"; Clicker.m_interval := 2 # 10 |}).
Proof.
  split; [|split].
  - intros data pl. unfold Player.load_from_file.
    destruct (Player.make_events data); reflexivity.
  - intros pl. reflexivity.
  - eexists. split; [vm_compute; reflexivity|].
    repeat (split; [vm_compute; reflexivity|]). vm_compute. reflexivity.
Qed.

(** ** Hotkey capture *)

Lemma core_of_set_same (pid : App.PageId) (c : PageCore) (app : App.MainApp) :
  App.core_of pid (App.set_core_of pid c app) = c.
Proof. destruct pid; reflexivity. Qed.

Lemma core_of_set_other (pid : App.PageId) (c : PageCore) (app : App.MainApp) :
  App.core_of (App.other_page pid) (App.set_core_of pid c app)
  = App.core_of (App.other_page pid) app.
Proof. destruct pid; reflexivity. Qed.

Lemma core_of_stop_hotkeys (pid : App.PageId) (app : App.MainApp) :
  App.core_of pid (App.stop_hotkeys app) = App.core_of pid app.
Proof. destruct pid; reflexivity. Qed.

Lemma core_of_refresh_hotkeys (pid : App.PageId) (app : App.MainApp) :
  App.core_of pid (App.refresh_hotkeys app) = App.core_of pid app.
Proof. destruct pid; reflexivity. Qed.

Lemma core_of_notify (pid pid' : App.PageId) (app : App.MainApp) :
  App.core_of pid (App.notify_hotkeys_changed pid' app) = App.core_of pid app.
Proof. destruct pid, pid'; reflexivity. Qed.

Lemma core_of_end_capture_same (pid : App.PageId) (app : App.MainApp) :
  App.core_of pid (App.end_capture pid app)
  = {| hotkeys := hotkeys (App.core_of pid app); capture_action := None;
       cap_listener := false; cap_pressed := ∅;
       edit_buttons_disabled := false;
       log_text := log_text (App.core_of pid app) |}.
Proof.
  unfold App.end_capture.
  now rewrite core_of_refresh_hotkeys, core_of_notify, core_of_set_same.
Qed.

Lemma core_of_end_capture_other (pid : App.PageId) (app : App.MainApp) :
  App.core_of (App.other_page pid) (App.end_capture pid app)
  = App.core_of (App.other_page pid) app.
Proof.
  unfold App.end_capture.
  now rewrite core_of_refresh_hotkeys, core_of_notify, core_of_set_other.
Qed.

Lemma page_cases (pid p : App.PageId) : p = pid \/ p = App.other_page pid.
Proof. destruct pid, p; auto. Qed.

Lemma other_page_ne (pid : App.PageId) : App.other_page pid <> pid.
Proof. destruct pid; discriminate. Qed.

(** C3, as amended.  Each page keeps its own capture session.  While the
    session of a page is capturing, every begin-capture request on that
    same page, for any action, is rejected with the busy dialog: no listener
    is started and nothing else changes; once that session has ended
    (committed or cancelled) the page accepts a request again.  A request
    on the other page is not blocked by it: if that page has no session of
    its own, the request is accepted and a second capture listener runs
    beside the first. *)
Theorem begin_capture_busy_on_same_page (pid : App.PageId)
    (action held : string) (app : App.MainApp) :
  capture_action (App.core_of pid app) = Some held ->
  (exists app',
     App.begin_capture pid action app = inl app'
     /\ App.dialogs app' = App.dialogs app ++ [MsgCaptureBusy]
     /\ App.page_rec app' = App.page_rec app
     /\ App.page_clk app' = App.page_clk app
     /\ App.hotkey_mapping app' = App.hotkey_mapping app
     /\ App.hotkey_listener app' = App.hotkey_listener app)
  /\ capture_action (App.core_of pid (App.end_capture pid app)) = None
  /\ (forall action' : string,
        capture_action (App.core_of (App.other_page pid) app) = None ->
        action' ∈ App.cap_label_keys (App.other_page pid) ->
        is_Some (hotkeys (App.core_of (App.other_page pid) app) !! action') ->
        exists app'',
          App.begin_capture (App.other_page pid) action' app = inl app''
          /\ App.dialogs app'' = App.dialogs app
          /\ capture_action (App.core_of (App.other_page pid) app'') = Some action'
          /\ cap_listener (App.core_of (App.other_page pid) app'') = true
          /\ App.core_of pid app'' = App.core_of pid app).
Proof.
  intros Hheld. split; [|split].
  - unfold App.begin_capture. rewrite Hheld. eexists. split; [reflexivity|].
    simpl. auto.
  - now rewrite core_of_end_capture_same.
  - intros action' Hidle Hlabel Hchord.
    unfold App.begin_capture. rewrite Hidle. cbn [hotkeys].
    rewrite (bool_decide_eq_true_2 _ Hlabel), (bool_decide_eq_true_2 _ Hchord).
    cbn [andb]. eexists. split; [reflexivity|].
    destruct pid; simpl; auto.
Qed.

Lemma begin_capture_busy_on_same_page_witness :
  exists app',
    App.begin_capture App.PageRec "toggle_play"
      (settle_app (App.begin_capture App.PageRec "toggle_record" App.initial_app))
    = inl app'
    /\ App.dialogs app' = [MsgCaptureBusy].
Proof.
  destruct (begin_capture_busy_on_same_page App.PageRec "toggle_play"
              "toggle_record"
              (settle_app (App.begin_capture App.PageRec "toggle_record"
                             App.initial_app)))
    as [(app' & H1 & H2 & _) _].
  - vm_compute. reflexivity.
  - exists app'. split; [exact H1|]. rewrite H2. vm_compute. reflexivity.
Defined.

(** C3 as stated fails across the pages: while the recorder page is
    capturing a chord for [toggle_record], a begin-capture request for
    [start_stop] on the clicker page is accepted without a busy dialog and
    starts a second listener; both sessions are then capturing. *)
Lemma second_session_on_other_page :
  exists a1 a2,
    App.begin_capture App.PageRec "toggle_record" App.initial_app = inl a1
    /\ capture_action (App.core_of App.PageRec a1) = Some "toggle_record"
    /\ cap_listener (App.core_of App.PageRec a1) = true
    /\ App.begin_capture App.PageClk "start_stop" a1 = inl a2
    /\ App.dialogs a2 = []
    /\ capture_action (App.core_of App.PageClk a2) = Some "start_stop"
    /\ cap_listener (App.core_of App.PageClk a2) = true
    /\ capture_action (App.core_of App.PageRec a2) = Some "toggle_record"
    /\ cap_listener (App.core_of App.PageRec a2) = true.
Proof.
  eexists. eexists.
  split; [vm_compute; reflexivity|].
  split; [vm_compute; reflexivity|].
  split; [vm_compute; reflexivity|].
  split; [vm_compute; reflexivity|].
  repeat (split; [vm_compute; reflexivity|]). vm_compute. reflexivity.
Qed.

(** ** Chord ownership *)

Lemma get_all_hotkeys_except (pid : App.PageId) (app : App.MainApp) :
  App.get_all_hotkeys (Some pid) app
  = App.page_all_hotkeys (App.core_of (App.other_page pid) app).
Proof.
  destruct pid; unfold App.get_all_hotkeys; simpl.
  - reflexivity.
  - now rewrite app_nil_r.
Qed.

(** [_is_hotkey_in_use] is true exactly when another (page, action) pair
    holds the chord. *)
Lemma is_hotkey_in_use_spec (pid : App.PageId) (combo action : string)
    (app : App.MainApp) :
  App.is_hotkey_in_use pid combo (Some action) app = true
  <-> exists p a, (p, a) <> (pid, action)
                  /\ hotkeys (App.core_of p app) !! a = Some combo.
Proof.
  unfold App.is_hotkey_in_use.
  rewrite orb_true_iff, existsb_exists, bool_decide_eq_true,
    get_all_hotkeys_except.
  split.
  - intros [([act s] & Hin & Htest) | Hin].
    + apply list_elem_of_In, elem_of_map_to_list in Hin.
      apply andb_true_iff in Htest as [Hne Heq].
      apply negb_true_iff, bool_decide_eq_false in Hne.
      apply bool_decide_eq_true in Heq. subst s.
      exists pid, act. split; [congruence | exact Hin].
    + unfold App.page_all_hotkeys in Hin.
      apply list_elem_of_fmap in Hin as ([a s] & -> & Hin).
      apply elem_of_map_to_list in Hin.
      exists (App.other_page pid), a. split; [|exact Hin].
      intros [= H _]. exact (other_page_ne _ H).
  - intros (p & a & Hne & Hlook).
    destruct (page_cases pid p) as [-> | ->].
    + left. exists (a, combo). split.
      * now apply list_elem_of_In, elem_of_map_to_list.
      * apply andb_true_iff. split.
        -- apply negb_true_iff, bool_decide_eq_false. congruence.
        -- now apply bool_decide_eq_true.
    + right. unfold App.page_all_hotkeys.
      apply list_elem_of_fmap. exists (a, combo). split; [reflexivity|].
      now apply elem_of_map_to_list.
Qed.

Lemma chords_unique_same_tables (app app' : App.MainApp) :
  (forall p, hotkeys (App.core_of p app') = hotkeys (App.core_of p app)) ->
  App.chords_unique app -> App.chords_unique app'.
Proof.
  intros Hsame Huniq p1 a1 p2 a2 chord H1 H2.
  rewrite Hsame in H1, H2. eauto.
Qed.

Lemma hotkeys_set_core_of (pid p : App.PageId) (c : PageCore)
    (app : App.MainApp) :
  hotkeys c = hotkeys (App.core_of pid app) ->
  hotkeys (App.core_of p (App.set_core_of pid c app))
  = hotkeys (App.core_of p app).
Proof.
  intros H. destruct (page_cases pid p) as [-> | ->].
  - now rewrite core_of_set_same.
  - now rewrite core_of_set_other.
Qed.

(** The tables after a chord was committed for [action] on page [pid]. *)
Lemma hotkeys_after_commit (pid p : App.PageId) (c : PageCore)
    (app : App.MainApp) :
  hotkeys (App.core_of p (App.end_capture pid (App.set_core_of pid c app)))
  = if decide (p = pid) then hotkeys c else hotkeys (App.core_of p app).
Proof.
  destruct (page_cases pid p) as [-> | ->].
  - rewrite core_of_end_capture_same, core_of_set_same.
    now rewrite decide_True.
  - rewrite core_of_end_capture_other, core_of_set_other.
    rewrite decide_False by apply other_page_ne. reflexivity.
Qed.

Lemma commit_keeps_unique (pid : App.PageId) (action combo : string)
    (c : PageCore) (app : App.MainApp) :
  App.chords_unique app ->
  App.is_hotkey_in_use pid combo (Some action) app = false ->
  hotkeys c = <[action := combo]> (hotkeys (App.core_of pid app)) ->
  App.chords_unique (App.end_capture pid (App.set_core_of pid c app)).
Proof.
  intros Huniq Hfree Hc.
  assert (Hown : forall p a,
             hotkeys (App.core_of p app) !! a = Some combo ->
             p = pid /\ a = action).
  { intros p a Hlook.
    destruct (decide ((p, a) = (pid, action))) as [[= -> ->]|Hne]; [auto|].
    assert (App.is_hotkey_in_use pid combo (Some action) app = true)
      by (apply is_hotkey_in_use_spec; eauto).
    congruence. }
  assert (Hnew : forall p a chord,
             hotkeys (App.core_of p (App.end_capture pid (App.set_core_of pid c app)))
               !! a = Some chord ->
             (p = pid /\ a = action /\ chord = combo)
             \/ ((p, a) <> (pid, action)
                 /\ hotkeys (App.core_of p app) !! a = Some chord)).
  { intros p a chord. rewrite hotkeys_after_commit.
    destruct (decide (p = pid)) as [->|Hp].
    - rewrite Hc. destruct (decide (a = action)) as [->|Ha].
      + rewrite lookup_insert_eq. intros [= <-]. auto.
      + rewrite lookup_insert_ne by congruence. intros H. right.
        split; [congruence | exact H].
    - intros H. right. split; [congruence | exact H]. }
  intros p1 a1 p2 a2 chord H1 H2.
  apply Hnew in H1, H2.
  destruct H1 as [(-> & -> & ->) | [Hne1 H1]];
    destruct H2 as [(-> & -> & E2) | [Hne2 H2]]; auto.
  - destruct (Hown _ _ H2) as [-> ->]. auto.
  - subst chord. destruct (Hown _ _ H1) as [-> ->]. auto.
  - exact (Huniq _ _ _ _ _ H1 H2).
Qed.

Lemma on_press_keeps_unique (pid : App.PageId) (key : App.Key)
    (app : App.MainApp) :
  App.chords_unique app -> App.chords_unique (App.on_press pid key app).
Proof.
  intros Huniq. unfold App.on_press.
  destruct (cap_listener (App.core_of pid app)); [|exact Huniq].
  destruct (capture_action (App.core_of pid app)) as [action|]; [|exact Huniq].
  destruct (App.is_modifier key).
  { destruct (App.mod_token key); [|exact Huniq].
    eapply chords_unique_same_tables; [|exact Huniq].
    intros p. now apply hotkeys_set_core_of. }
  destruct (App.keystr_of key) as [keystr|]; [|exact Huniq].
  destruct (App.is_hotkey_in_use pid _ (Some action) app) eqn:Huse.
  { eapply chords_unique_same_tables; [|exact Huniq].
    intros p. now apply hotkeys_set_core_of. }
  eapply commit_keeps_unique; [exact Huniq | exact Huse | reflexivity].
Qed.

(** A chord outside [used] is found in a pool that has more distinct
    chords than [used] has elements. *)
Lemma pool_has_free (pool : list string) (used : gset string) :
  NoDup pool -> (size used < length pool)%nat ->
  exists c, List.find (fun c => bool_decide (c ∉ used)) pool = Some c.
Proof.
  intros Hnd Hsize.
  destruct (List.find (fun c => bool_decide (c ∉ used)) pool) as [c|] eqn:E;
    [eauto|].
  exfalso.
  assert (Hsub : list_to_set pool ⊆ used).
  { intros c Hc. apply elem_of_list_to_set, list_elem_of_In in Hc.
    pose proof (find_none _ _ E c Hc) as H. simpl in H.
    apply bool_decide_eq_false in H.
    destruct (decide (c ∈ used)); [assumption | contradiction]. }
  apply subseteq_size in Hsub.
  rewrite size_list_to_set in Hsub by exact Hnd. lia.
Qed.

Lemma add_or_fix_fresh (combo : string) (pool : list string)
    (used : gset string) :
  NoDup pool -> (size used < length pool)%nat ->
  exists c,
    App.add_or_fix combo pool used = (c, {[c]} ∪ used) /\ c ∉ used.
Proof.
  intros Hnd Hsize. unfold App.add_or_fix.
  destruct (bool_decide (combo ∉ used)) eqn:E.
  - apply bool_decide_eq_true in E. eauto.
  - destruct (pool_has_free pool used Hnd Hsize) as [c Hc]. rewrite Hc.
    apply find_some in Hc as [_ Hc]. apply bool_decide_eq_true in Hc. eauto.
Qed.

Lemma size_add_fresh (c : string) (used : gset string) :
  c ∉ used -> size ({[c]} ∪ used) = S (size used).
Proof.
  intros H. rewrite size_union by set_solver. now rewrite size_singleton.
Qed.

Lemma ensure_no_duplicates_distinct (app : App.MainApp) :
  exists c1 c2 c3 c4,
    let app' := App.ensure_no_duplicates_on_load app in
    hotkeys (App.core_of App.PageClk app') !! "add_marker" = Some c1
    /\ hotkeys (App.core_of App.PageClk app') !! "start_stop" = Some c2
    /\ hotkeys (App.core_of App.PageRec app') !! "toggle_record" = Some c3
    /\ hotkeys (App.core_of App.PageRec app') !! "toggle_play" = Some c4
    /\ NoDup [c1; c2; c3; c4].
Proof.
  assert (Hclk : NoDup App.pools_clk) by compute_done.
  assert (Hrec : NoDup App.pools_rec) by compute_done.
  unfold App.ensure_no_duplicates_on_load.
  set (hk_clk := hotkeys (App.core_of App.PageClk app)).
  set (hk_rec := hotkeys (App.core_of App.PageRec app)).
  destruct (add_or_fix_fresh (default "<f6>" (hk_clk !! "add_marker"))
              App.pools_clk ∅ Hclk) as (c1 & E1 & F1).
  { rewrite size_empty. simpl. lia. }
  rewrite E1.
  pose proof (size_add_fresh c1 ∅ F1) as S1. rewrite size_empty in S1.
  destruct (add_or_fix_fresh
              (default "<f7>" (<["add_marker" := c1]> hk_clk !! "start_stop"))
              App.pools_clk ({[c1]} ∪ ∅) Hclk) as (c2 & E2 & F2).
  { rewrite S1. simpl. lia. }
  rewrite E2.
  pose proof (size_add_fresh c2 _ F2) as S2. rewrite S1 in S2.
  destruct (add_or_fix_fresh (default "<f9>" (hk_rec !! "toggle_record"))
              App.pools_rec ({[c2]} ∪ ({[c1]} ∪ ∅)) Hrec) as (c3 & E3 & F3).
  { rewrite S2. simpl. lia. }
  rewrite E3.
  pose proof (size_add_fresh c3 _ F3) as S3. rewrite S2 in S3.
  destruct (add_or_fix_fresh
              (default "<f10>" (<["toggle_record" := c3]> hk_rec !! "toggle_play"))
              App.pools_rec ({[c3]} ∪ ({[c2]} ∪ ({[c1]} ∪ ∅))) Hrec)
    as (c4 & E4 & F4).
  { rewrite S3. simpl. lia. }
  rewrite E4.
  exists c1, c2, c3, c4. cbv zeta.
  split; [|split; [|split; [|split]]].
  - simpl. rewrite lookup_insert_ne by discriminate. apply lookup_insert_eq.
  - simpl. apply lookup_insert_eq.
  - simpl. rewrite lookup_insert_ne by discriminate. apply lookup_insert_eq.
  - simpl. apply lookup_insert_eq.
  - apply not_elem_of_union in F2 as [N21 _].
    apply not_elem_of_union in F3 as [N32 F3].
    apply not_elem_of_union in F3 as [N31 _].
    apply not_elem_of_union in F4 as [N43 F4].
    apply not_elem_of_union in F4 as [N42 F4].
    apply not_elem_of_union in F4 as [N41 _].
    apply not_elem_of_singleton in N21, N32, N31, N43, N42, N41.
    rewrite !NoDup_cons, !not_elem_of_cons.
    repeat split; try congruence; try apply not_elem_of_nil. apply NoDup_nil_2.
Qed.

Lemma NoDup_fmap_inj_on {A B : Type} (f : A -> B) (l : list A) :
  NoDup (f <$> l) ->
  forall x y, x ∈ l -> y ∈ l -> f x = f y -> x = y.
Proof.
  induction l as [|z l IH]; intros Hnd x y Hx Hy Hf.
  - now apply elem_of_nil in Hx.
  - rewrite fmap_cons in Hnd. apply NoDup_cons in Hnd as [Hz Hnd].
    apply elem_of_cons in Hx as [-> | Hx]; apply elem_of_cons in Hy as [-> | Hy].
    + reflexivity.
    + exfalso. apply Hz. rewrite Hf. now apply list_elem_of_fmap_2.
    + exfalso. apply Hz. rewrite <- Hf. now apply list_elem_of_fmap_2.
    + now apply IH.
Qed.

(** A decidable reading of [chords_unique]: the chords of the two pages,
    listed together, do not repeat. *)
Lemma chords_unique_from_NoDup (app : App.MainApp) :
  NoDup (App.get_all_hotkeys None app) -> App.chords_unique app.
Proof.
  unfold App.get_all_hotkeys. simpl. intros Hnd.
  apply NoDup_app in Hnd as (Hrec & Hcross & Hclk).
  assert (Hin : forall p a chord,
             hotkeys (App.core_of p app) !! a = Some chord ->
             (a, chord) ∈ map_to_list (hotkeys (App.core_of p app)))
    by (intros; now apply elem_of_map_to_list).
  assert (Hval : forall p a chord,
             hotkeys (App.core_of p app) !! a = Some chord ->
             chord ∈ App.page_all_hotkeys (App.core_of p app)).
  { intros p a chord H. unfold App.page_all_hotkeys.
    apply list_elem_of_fmap. exists (a, chord). split; [reflexivity | now apply Hin]. }
  intros p1 a1 p2 a2 chord H1 H2.
  destruct p1, p2.
  - split; [reflexivity|].
    pose proof (NoDup_fmap_inj_on snd _ Hrec (a1, chord) (a2, chord)
                  (Hin _ _ _ H1) (Hin _ _ _ H2) eq_refl) as E.
    congruence.
  - exfalso. exact (Hcross chord (Hval _ _ _ H1) (Hval _ _ _ H2)).
  - exfalso. exact (Hcross chord (Hval _ _ _ H2) (Hval _ _ _ H1)).
  - split; [reflexivity|].
    pose proof (NoDup_fmap_inj_on snd _ Hclk (a1, chord) (a2, chord)
                  (Hin _ _ _ H1) (Hin _ _ _ H2) eq_refl) as E.
    congruence.
Qed.

(** [load_config_file] writes the persisted [start_stop] chord without
    asking [_is_hotkey_in_use]: here it ends up equal to the chord of
    [add_marker] on the same page. *)
Lemma load_config_file_takes_held_chord :
  exists p,
    Clicker.load_config_file f6_for_start_stop (App.page_clk App.initial_app)
    = inl p
    /\ hotkeys (Clicker.core p) !! "start_stop" = Some "<f6>"
    /\ hotkeys (Clicker.core p) !! "add_marker" = Some "<f6>".
Proof. eexists. split; [|split]; vm_compute; reflexivity. Qed.

(** C4, as amended.  A chord typed in a capture session is assigned only
    when no other action of the same page and no action of the other page
    holds it: if every chord had one owner before a key press reached the
    capture listener, every chord has one owner after it, and a chord that
    is held elsewhere is rejected with the conflict line, both pages' tables
    unchanged and the session still capturing.  Importing a persisted state
    takes its chords without such a check; at start-up
    [ensure_no_duplicates_on_load] then replaces chords (it rejects none)
    so that the four standard actions hold four different chords. *)
Theorem capture_keeps_chords_unique (pid : App.PageId) (key : App.Key)
    (app : App.MainApp) :
  App.chords_unique app ->
  App.chords_unique (App.on_press pid key app)
  /\ (forall action keystr p a,
        cap_listener (App.core_of pid app) = true ->
        capture_action (App.core_of pid app) = Some action ->
        App.is_modifier key = false ->
        App.keystr_of key = Some keystr ->
        (p, a) <> (pid, action) ->
        hotkeys (App.core_of p app) !! a
        = Some (App.combo_of (cap_pressed (App.core_of pid app)) keystr) ->
        let app' := App.on_press pid key app in
        hotkeys (App.core_of App.PageRec app')
        = hotkeys (App.core_of App.PageRec app)
        /\ hotkeys (App.core_of App.PageClk app')
           = hotkeys (App.core_of App.PageClk app)
        /\ log_text (App.core_of pid app')
           = log_text (App.core_of pid app)
             ++ [MsgCaptureConflict
                   (App.combo_of (cap_pressed (App.core_of pid app)) keystr)]
        /\ capture_action (App.core_of pid app') = Some action
        /\ cap_listener (App.core_of pid app') = true)
  /\ (forall app0,
        exists c1 c2 c3 c4,
          let app1 := App.ensure_no_duplicates_on_load app0 in
          hotkeys (App.core_of App.PageClk app1) !! "add_marker" = Some c1
          /\ hotkeys (App.core_of App.PageClk app1) !! "start_stop" = Some c2
          /\ hotkeys (App.core_of App.PageRec app1) !! "toggle_record" = Some c3
          /\ hotkeys (App.core_of App.PageRec app1) !! "toggle_play" = Some c4
          /\ NoDup [c1; c2; c3; c4]).
Proof.
  intros Huniq. split; [|split].
  - now apply on_press_keeps_unique.
  - intros action keystr p a Hlis Hact Hmod Hkey Hne Hheld app'.
    subst app'. unfold App.on_press.
    rewrite Hlis, Hact, Hmod, Hkey.
    assert (Huse : App.is_hotkey_in_use pid
                     (App.combo_of (cap_pressed (App.core_of pid app)) keystr)
                     (Some action) app = true)
      by (apply is_hotkey_in_use_spec; eauto).
    rewrite Huse. rewrite core_of_set_same.
    split; [|split; [|split; [|split]]].
    + now apply hotkeys_set_core_of.
    + now apply hotkeys_set_core_of.
    + reflexivity.
    + exact Hact.
    + exact Hlis.
  - intros app0. apply ensure_no_duplicates_distinct.
Qed.

Lemma capture_keeps_chords_unique_witness :
  App.chords_unique
    (App.on_press App.PageRec (App.KFunction "9")
       (settle_app (App.begin_capture App.PageRec "toggle_play" App.initial_app))).
Proof.
  apply (capture_keeps_chords_unique App.PageRec (App.KFunction "9")
           (settle_app (App.begin_capture App.PageRec "toggle_play"
                          App.initial_app))).
  apply chords_unique_from_NoDup. vm_compute.
  repeat constructor; rewrite ?elem_of_cons, elem_of_nil;
    intros H; repeat destruct H as [H|H]; discriminate || contradiction.
Defined.

(** C4 as stated fails on import: the persisted clicker state that gives
    [start_stop] the chord "<f9>" is taken as it is while the recorder page
    holds "<f9>" for [toggle_record].  Nothing is rejected, no conflict is
    reported, the clicker's table has changed, and the chord has two owners.
    The start-up repair that follows gives [toggle_record] another chord:
    the recorder's table changes too. *)
Lemma import_state_takes_held_chord :
  exists app',
    App.import_config ∅ f9_for_start_stop App.initial_app = inl app'
    /\ hotkeys (App.core_of App.PageRec App.initial_app) !! "toggle_record"
       = Some "<f9>"
    /\ hotkeys (App.core_of App.PageClk App.initial_app) !! "start_stop"
       = Some "<f7>"
    /\ hotkeys (App.core_of App.PageRec app') !! "toggle_record" = Some "<f9>"
    /\ hotkeys (App.core_of App.PageClk app') !! "start_stop" = Some "<f9>"
    /\ App.dialogs app' = []
    /\ log_text (App.core_of App.PageClk app') = [MsgMarkersCleared]
    /\ log_text (App.core_of App.PageRec app') = []
    /\ ~ App.chords_unique app'
    /\ hotkeys (App.core_of App.PageRec (App.ensure_no_duplicates_on_load app'))
         !! "toggle_record" = Some "<f10>"
    /\ hotkeys (App.core_of App.PageClk (App.ensure_no_duplicates_on_load app'))
         !! "start_stop" = Some "<f9>".
Proof.
  eexists. split; [vm_compute; reflexivity|].
  do 7 (split; [vm_compute; reflexivity|]).
  split; [|split; vm_compute; reflexivity].
  intros Huniq.
  destruct (Huniq App.PageRec "toggle_record" App.PageClk "start_stop" "<f9>")
    as [Hpage _]; [vm_compute; reflexivity | vm_compute; reflexivity |].
  discriminate Hpage.
Qed.

(** * Further properties of the code *)

(** ** Playback: loop counts, cancellation, durations *)

Lemma play_events_tick (flag : nat -> bool) (speed : Q)
    (evs : list Player.Event) :
  forall (prev : Q) (tick : nat) (fl : Flow) (tk : nat) (tr : list Effect),
    Player.play_events flag speed evs prev tick = (fl, tk, tr) ->
    (tick <= tk)%nat.
Proof.
  induction evs as [|ev evs IH]; intros prev tick fl tk tr; simpl.
  - intros [= <- <- <-]. lia.
  - destruct (flag tick); [intros [= <- <- <-]; lia|].
    destruct (Qltb _ 0); [intros [= <- <- <-]; lia|].
    destruct (Player.apply_event ev) as [outs|]; [|intros [= <- <- <-]; lia].
    destruct (Player.play_events flag speed evs (Player.ev_t ev) (S tick))
      as [[fl' tk'] tr'] eqn:E.
    intros [= <- <- <-]. apply IH in E. lia.
Qed.

Lemma play_rounds_ends (flag : nat -> bool) (k0 : nat) (speed gap : Q)
    (loops : Z) (evs : list Player.Event) :
  set_from k0 flag ->
  forall (fuel idx tick : nat),
    (1 <= fuel)%nat -> (k0 < fuel + tick)%nat ->
    fst (fst (Player.play_rounds fuel flag speed loops gap evs idx tick))
    <> OutOfFuel.
Proof.
  intros Hset. induction fuel as [|fuel IH]; intros idx tick Hpos Hk0; [lia|].
  simpl.
  destruct (negb (more_loops loops idx)); [discriminate|].
  destruct (flag tick) eqn:Hflag; [discriminate|].
  destruct (Player.play_events flag speed evs 0 (S tick))
    as [[fl tk1] tr1] eqn:E1.
  apply play_events_tick in E1.
  destruct fl; simpl; try discriminate.
  destruct (Player.play_rounds fuel flag speed loops gap evs (S idx) tk1)
    as [[ex2 tk2] tr2] eqn:E2.
  simpl. destruct fuel as [|fuel'].
  - rewrite Hset in Hflag by lia. discriminate.
  - pose proof (IH (S idx) tk1 ltac:(lia) ltac:(lia)) as H.
    rewrite E2 in H. exact H.
Qed.

(** X1.  A playback with [loops = -1] that is not cancelled never ends by
    itself: however far the loop is unrolled, it has run that many full
    rounds and is still going. *)
Theorem unbounded_playback_keeps_going (evs : list Player.Event)
    (speed gap delay : Q) (fuel : nat) :
  nondecreasing_from 0 (map Player.ev_t evs) ->
  forallb has_payload evs = true ->
  Player.play_loop fuel (fun _ => false) speed (-1) gap delay evs
  = (OutOfFuel,
     replay_delay delay
       ++ concat (map (replay_round speed gap evs) (seq 1 fuel))).
Proof.
  intros Hmono Hok. unfold Player.play_loop.
  destruct (play_rounds_unbounded speed gap evs Hmono Hok fuel 0%nat 0%nat)
    as [tk H].
  rewrite H. now rewrite app_nil_r.
Qed.

Lemma unbounded_playback_keeps_going_witness :
  Player.play_loop 3 (fun _ => false) 1 (-1) 0 0 press_release
  = (OutOfFuel,
     replay_delay 0
       ++ concat (map (replay_round 1 0 press_release) (seq 1 3))).
Proof.
  apply (unbounded_playback_keeps_going press_release 1 0 0 3).
  - simpl. split; [|split; [|exact I]]; unfold Qle; simpl; lia.
  - reflexivity.
Defined.

(** X2.  Cancellation ends every playback, the unbounded one too: if the
    stop flag is set from its [k0]-th read on, the thread function has
    returned within [k0 + 1] rounds, whatever the recording, the loop count
    and the other parameters are. *)
Theorem cancelled_playback_ends (flag : nat -> bool) (k0 fuel : nat)
    (speed gap delay : Q) (loops : Z) (evs : list Player.Event) :
  set_from k0 flag ->
  (k0 < fuel)%nat ->
  fst (Player.play_loop fuel flag speed loops gap delay evs) <> OutOfFuel.
Proof.
  intros Hset Hfuel. unfold Player.play_loop.
  pose proof (play_rounds_ends flag k0 speed gap loops evs Hset fuel 0%nat 0%nat
                ltac:(lia) ltac:(lia)) as H.
  destruct (Player.play_rounds fuel flag speed loops gap evs 0 0)
    as [[ex tk] tr]. exact H.
Qed.

Lemma cancelled_playback_ends_witness :
  fst (Player.play_loop 5 (fun k => (4 <=? k)%nat) 1 (-1) 0 0 press_release)
  <> OutOfFuel.
Proof.
  apply (cancelled_playback_ends (fun k => (4 <=? k)%nat) 4 5 1 0 0 (-1)
           press_release).
  - intros k Hk. apply Nat.leb_le. exact Hk.
  - lia.
Defined.

(** X3.  A loop count of 0, or any negative one other than -1, runs no
    round: after the optional start delay both workers log completion and
    end, without reading the stop flag and without any output. *)
Theorem no_round_without_loops (loops : Z) (fuel : nat) :
  loops <= 0 -> loops <> -1 ->
  (forall flag speed gap delay evs,
     Player.play_loop (S fuel) flag speed loops gap delay evs
     = (Finished, replay_delay delay ++ [Log MsgPlaybackDone; OnEnd]))
  /\ (forall env delay ms,
        Clicker.worker (S fuel) env
          {| Clicker.cfg_loops := loops; Clicker.cfg_delay := delay |} ms
        = (Finished, click_delay delay ++ [Log MsgClickDone; OnEnd])).
Proof.
  intros Hle Hne.
  assert (Hmore : more_loops loops 0 = false).
  { unfold more_loops. destruct (Z.eqb_spec loops (-1)); [contradiction|].
    apply Z.ltb_ge. simpl. lia. }
  split; intros.
  - unfold Player.play_loop. simpl. rewrite Hmore. reflexivity.
  - unfold Clicker.worker. simpl. rewrite Hmore. reflexivity.
Qed.

Lemma no_round_without_loops_witness :
  Player.play_loop 1 (fun _ => false) 1 0 0 0 press_release
  = (Finished, replay_delay 0 ++ [Log MsgPlaybackDone; OnEnd]).
Proof.
  apply (no_round_without_loops 0 0); [lia | discriminate].
Defined.





(** ** Recording *)









Lemma make_events_saved (evs : list Player.Event) :
  Player.make_events (map Recorder.event_entry evs) = Some evs.
Proof.
  induction evs as [|e evs IH]; [reflexivity|].
  simpl. rewrite IH. now destruct e.
Qed.

(** X6.  Saving a recording and loading the saved document gives the same
    recording back, event for event, and touches nothing else of the
    player but its log. *)
Theorem save_then_load_recording (st : Recorder.RecorderState)
    (pl : Player.RecorderPlayer) :
  exists pl',
    Player.load_from_file (fst (Recorder.save_to_file st)) pl = inl pl'
    /\ Player.recording pl' = Recorder.events st
    /\ Player.is_playing pl' = Player.is_playing pl
    /\ Player.stop_play_event pl' = Player.stop_play_event pl
    /\ Player.threads pl' = Player.threads pl
    /\ Player.player_log pl'
       = Player.player_log pl ++ [MsgLoaded (length (Recorder.events st))].
Proof.
  unfold Player.load_from_file, Recorder.save_to_file. simpl.
  rewrite make_events_saved. eexists. split; [reflexivity|]. simpl. auto.
Qed.

Lemma deliver_keeps_modes (n : Recorder.Notification)
    (st : Recorder.RecorderState) :
  Recorder.listening (Recorder.deliver n st) = Recorder.listening st
  /\ Player.is_playing (Recorder.player (Recorder.deliver n st))
     = Player.is_playing (Recorder.player st).
Proof.
  destruct n; simpl;
    unfold Recorder.on_mouse_move, Recorder.on_mouse_click,
      Recorder.on_mouse_scroll, Recorder.on_key, Recorder.sampler_step;
    try destruct (Recorder.listening st) eqn:E;
    try destruct (Recorder.stop_record_event st);
    try destruct (Recorder.last_mouse_pos st) as [[? ?]|];
    try destruct (Recorder.start_time st);
    simpl; auto.
Qed.

Lemma step_keeps_exclusive (e : Recorder.PageEvent) (pg : Recorder.Page) :
  exclusive pg -> exclusive (Recorder.step e pg).
Proof.
  unfold exclusive. intros Hex.
  destruct e as [now | | n |]; simpl.
  - unfold Recorder.toggle_record.
    destruct (Player.is_playing (Recorder.player (Recorder.state pg))) eqn:Hp;
      [rewrite Hp; exact Hex|].
    destruct (Recorder.is_recording (Recorder.state pg)); simpl.
    + discriminate.
    + intros _. rewrite Hp. discriminate.
  - unfold Recorder.toggle_play.
    destruct (Recorder.is_recording (Recorder.state pg)) eqn:Hr;
      [rewrite Hr; exact Hex|].
    destruct (Player.is_playing (Recorder.player (Recorder.state pg))) eqn:Hp.
    + unfold Recorder.stop_play. simpl.
      unfold Recorder.is_recording in *. simpl. rewrite Hr. discriminate.
    + unfold Recorder.start_play.
      destruct (Player.start_playback _ _ _ _ _) as [[ok msg] pl]. simpl.
      unfold Recorder.is_recording in *. simpl. rewrite Hr. discriminate.
  - destruct (deliver_keeps_modes n (Recorder.state pg)) as [Hl Hp].
    unfold Recorder.is_recording in *. rewrite Hl, Hp. exact Hex.
  - intros _. discriminate.
Qed.

(** X7.  Recording and playback exclude each other on the recorder page:
    starting from a page where not both are active, no sequence of record
    toggles, play toggles, input notifications and playback-thread ends
    reaches a state where both are. *)
Theorem recording_excludes_playback (es : list Recorder.PageEvent)
    (pg : Recorder.Page) :
  exclusive pg -> exclusive (Recorder.steps es pg).
Proof.
  revert pg. induction es as [|e es IH]; intros pg Hex; simpl; [exact Hex|].
  apply IH. now apply step_keeps_exclusive.
Qed.

Lemma recording_excludes_playback_witness :
  exclusive
    (Recorder.steps
       [Recorder.ToggleRecord 10;
        Recorder.Notify (Recorder.NMove 11 1 1);
        Recorder.TogglePlay; Recorder.ToggleRecord 12; Recorder.TogglePlay;
        Recorder.ToggleRecord 13]
       Recorder.initial_page).
Proof.
  apply (recording_excludes_playback _ Recorder.initial_page).
  intros H. discriminate H.
Defined.


(** ** The click-loop: complete runs and cancellation *)

Lemma click_markers_static (env : nat -> Clicker.Shared)
    (h : gmap nat Clicker.Marker) :
  (forall k, Clicker.sh_stop (env k) = false /\ Clicker.sh_heap (env k) = h) ->
  forall (ms : list nat) (vals : list Clicker.Marker) (tick : nat),
    Forall2 (fun l m => h !! l = Some m) ms vals ->
    exists tk,
      Clicker.click_markers env ms tick
      = (Continue, tk, flat_map click_step vals).
Proof.
  intros Henv ms vals tick Hvals. revert tick.
  induction Hvals as [|l m ms vals Hl Hrest IH]; intros tick.
  - exists tick. reflexivity.
  - destruct (Henv tick) as [Hstop Hheap]. simpl.
    rewrite Hstop, Hheap, Hl.
    destruct (IH (S tick)) as [tk Htk]. rewrite Htk. exists tk. reflexivity.
Qed.

Lemma click_rounds_static (env : nat -> Clicker.Shared)
    (h : gmap nat Clicker.Marker) (loops : Z) (ms : list nat)
    (vals : list Clicker.Marker) :
  (forall k, Clicker.sh_stop (env k) = false /\ Clicker.sh_heap (env k) = h) ->
  Forall2 (fun l m => h !! l = Some m) ms vals ->
  0 <= loops ->
  forall (k idx tick fuel : nat),
    (idx + k = Z.to_nat loops)%nat -> (k < fuel)%nat ->
    exists tk,
      Clicker.click_rounds fuel env loops ms idx tick
      = (Finished, tk, concat (map (click_round vals) (seq (S idx) k))).
Proof.
  intros Henv Hvals Hloops.
  induction k as [|k IH]; intros idx tick fuel Hidx Hfuel;
    destruct fuel as [|fuel]; try lia; simpl.
  - rewrite more_loops_finite by assumption.
    destruct (Nat.ltb_spec idx (Z.to_nat loops)); [lia|].
    exists tick. reflexivity.
  - rewrite more_loops_finite by assumption.
    destruct (Nat.ltb_spec idx (Z.to_nat loops)); [|lia]. simpl.
    destruct (Henv tick) as [Hstop _]. rewrite Hstop.
    destruct (click_markers_static env h Henv ms vals (S tick) Hvals)
      as [tk1 H1].
    rewrite H1.
    destruct (IH (S idx) tk1 fuel ltac:(lia) ltac:(lia)) as [tk2 H2].
    rewrite H2. exists tk2. unfold click_round at 2.
    simpl. rewrite <- !app_assoc. reflexivity.
Qed.

(** X9.  A click-loop that is neither cancelled nor edited meanwhile, with
    [loops >= 0]: after the optional start delay it runs [loops] rounds; in
    each round it visits every marker of the list it was given, in list
    order: pointer to (x, y), one click of the marker's button, the log
    line, then a suspension of the marker's interval clamped into
    [0.01, 5.0]; then it logs completion and ends. *)
Theorem click_loop_runs_every_round (env : nat -> Clicker.Shared)
    (h : gmap nat Clicker.Marker) (cfg : Clicker.ClickConfig)
    (ms : list nat) (vals : list Clicker.Marker) (fuel : nat) :
  (forall k, Clicker.sh_stop (env k) = false /\ Clicker.sh_heap (env k) = h) ->
  Forall2 (fun l m => h !! l = Some m) ms vals ->
  0 <= Clicker.cfg_loops cfg ->
  (Z.to_nat (Clicker.cfg_loops cfg) < fuel)%nat ->
  Clicker.worker fuel env cfg ms
  = (Finished,
     click_delay (Clicker.cfg_delay cfg)
       ++ concat (map (click_round vals)
                    (seq 1 (Z.to_nat (Clicker.cfg_loops cfg))))
       ++ [Log MsgClickDone; OnEnd]).
Proof.
  intros Henv Hvals Hloops Hfuel. unfold Clicker.worker.
  destruct (click_rounds_static env h (Clicker.cfg_loops cfg) ms vals Henv
              Hvals Hloops (Z.to_nat (Clicker.cfg_loops cfg)) 0%nat 0%nat fuel
              ltac:(lia) Hfuel) as [tk H].
  rewrite H. reflexivity.
Qed.

Lemma click_loop_runs_every_round_witness :
  Clicker.worker 3
    (fun _ => Clicker.shared_of (Clicker.toggle_start two_markers))
    {| Clicker.cfg_loops := 2; Clicker.cfg_delay := 0 |} [0%nat; 1%nat]
  = (Finished,
     click_delay 0
       ++ concat (map (click_round
                         [ {| Clicker.m_id := 1; Clicker.m_x := 5;
                              Clicker.m_y := 5; Clicker.m_button := "left";
                              Clicker.m_interval := 2 # 10 |};
                           {| Clicker.m_id := 2; Clicker.m_x := 50;
                              Clicker.m_y := 50; Clicker.m_button := "right";
                              Clicker.m_interval := 1 # 10 |} ])
                    (seq 1 (Z.to_nat 2)))
       ++ [Log MsgClickDone; OnEnd]).
Proof.
  apply (click_loop_runs_every_round
           (fun _ => Clicker.shared_of (Clicker.toggle_start two_markers))
           (Clicker.heap two_markers)
           {| Clicker.cfg_loops := 2; Clicker.cfg_delay := 0 |}).
  - intros k. split; vm_compute; reflexivity.
  - repeat constructor; vm_compute; reflexivity.
  - simpl. lia.
  - simpl. lia.
Defined.

Lemma click_markers_tick (env : nat -> Clicker.Shared) (ms : list nat) :
  forall (tick : nat) (fl : Flow) (tk : nat) (tr : list Effect),
    Clicker.click_markers env ms tick = (fl, tk, tr) -> (tick <= tk)%nat.
Proof.
  induction ms as [|l ms IH]; intros tick fl tk tr; simpl.
  - intros [= <- <- <-]. lia.
  - destruct (Clicker.sh_stop (env tick)); [intros [= <- <- <-]; lia|].
    destruct (Clicker.sh_heap (env tick) !! l) as [m|];
      [|intros [= <- <- <-]; lia].
    destruct (Clicker.click_markers env ms (S tick)) as [[fl' tk'] tr'] eqn:E.
    intros [= <- <- <-]. apply IH in E. lia.
Qed.

Lemma click_rounds_ends (env : nat -> Clicker.Shared) (k0 : nat) (loops : Z)
    (ms : list nat) :
  set_from k0 (fun k => Clicker.sh_stop (env k)) ->
  forall (fuel idx tick : nat),
    (1 <= fuel)%nat -> (k0 < fuel + tick)%nat ->
    fst (fst (Clicker.click_rounds fuel env loops ms idx tick)) <> OutOfFuel.
Proof.
  intros Hset. induction fuel as [|fuel IH]; intros idx tick Hpos Hk0; [lia|].
  simpl.
  destruct (negb (more_loops loops idx)); [discriminate|].
  destruct (Clicker.sh_stop (env tick)) eqn:Hflag; [discriminate|].
  destruct (Clicker.click_markers env ms (S tick)) as [[fl tk1] tr1] eqn:E1.
  apply click_markers_tick in E1.
  assert (Hrec : fst (fst (Clicker.click_rounds fuel env loops ms (S idx) tk1))
                 <> OutOfFuel).
  { destruct fuel as [|fuel'].
    - unfold set_from in Hset. rewrite Hset in Hflag by lia. discriminate.
    - apply IH; lia. }
  destruct (Clicker.click_rounds fuel env loops ms (S idx) tk1)
    as [[ex2 tk2] tr2].
  destruct fl; simpl; auto; discriminate.
Qed.

(** X10.  Stopping ends every click-loop, the unbounded one too: once the
    user has toggled the run off (or the runner's [stop] was called) by the
    worker's [k0]-th read of the flag, the thread function returns within
    [k0 + 1] rounds, whatever else the main thread does meanwhile. *)
Theorem stopped_click_loop_ends (sched : nat -> list Clicker.PageOp)
    (p : Clicker.ClickerPage) (cfg : Clicker.ClickConfig) (ms : list nat)
    (k0 fuel : nat) :
  Clicker.is_running (Clicker.runner p) = true ->
  Clicker.stop_event (Clicker.runner (Clicker.page_at sched p k0)) = true ->
  (k0 < fuel)%nat ->
  fst (Clicker.worker fuel
         (fun k => Clicker.shared_of (Clicker.page_at sched p k)) cfg ms)
  <> OutOfFuel.
Proof.
  intros Hrun Hstop Hfuel.
  assert (Hset : set_from k0
                   (fun k => Clicker.sh_stop
                               (Clicker.shared_of (Clicker.page_at sched p k)))).
  { intros k Hk. induction Hk as [|k Hk IH]; [exact Hstop|].
    now apply (page_at_flag_stays sched p Hrun). }
  unfold Clicker.worker.
  pose proof (click_rounds_ends _ k0 (Clicker.cfg_loops cfg) ms Hset fuel
                0%nat 0%nat ltac:(lia) ltac:(lia)) as H.
  destruct (Clicker.click_rounds fuel _ (Clicker.cfg_loops cfg) ms 0 0)
    as [[ex tk] tr]. exact H.
Qed.

Lemma stopped_click_loop_ends_witness :
  fst (Clicker.worker 3
         (fun k => Clicker.shared_of
                     (Clicker.page_at stop_after_first_click
                        (Clicker.toggle_start two_markers) k))
         {| Clicker.cfg_loops := -1; Clicker.cfg_delay := 0 |}
         [0%nat; 1%nat])
  <> OutOfFuel.
Proof.
  apply (stopped_click_loop_ends stop_after_first_click
           (Clicker.toggle_start two_markers)
           {| Clicker.cfg_loops := -1; Clicker.cfg_delay := 0 |}
           [0%nat; 1%nat] 2 3).
  - vm_compute. reflexivity.
  - vm_compute. reflexivity.
  - lia.
Defined.

(** ** The marker list of the clicker page *)

Lemma renumber_is_Some (ms : list nat) (h : gmap nat Clicker.Marker)
    (i : Z) (l : nat) :
  is_Some (Clicker.renumber h ms i !! l) <-> is_Some (h !! l).
Proof.
  rewrite <- (fmap_is_Some click_fields (Clicker.renumber h ms i !! l)).
  rewrite renumber_click_fields. apply fmap_is_Some.
Qed.

Lemma renumber_outside (ms : list nat) :
  forall (h : gmap nat Clicker.Marker) (i : Z) (l : nat),
    l ∉ ms -> Clicker.renumber h ms i !! l = h !! l.
Proof.
  induction ms as [|l' ms IH]; intros h i l Hl; simpl; [reflexivity|].
  apply not_elem_of_cons in Hl as [Hne Hl].
  rewrite IH by exact Hl. now rewrite lookup_alter_ne.
Qed.

Lemma renumber_ids (ms : list nat) :
  forall (h : gmap nat Clicker.Marker) (i : Z),
    NoDup ms ->
    (forall l, l ∈ ms -> is_Some (h !! l)) ->
    forall (k : nat) (l : nat),
      ms !! k = Some l ->
      Clicker.m_id <$> (Clicker.renumber h ms i !! l) = Some (i + Z.of_nat k).
Proof.
  induction ms as [|l0 ms IH]; intros h i Hnd Hin k l Hk; [discriminate|].
  apply NoDup_cons in Hnd as [Hl0 Hnd]. simpl.
  destruct k as [|k]; simpl in Hk.
  - injection Hk as <-. rewrite renumber_outside by exact Hl0.
    rewrite lookup_alter_eq.
    destruct (Hin l0 ltac:(left)) as [m Hm]. rewrite Hm. simpl.
    f_equal. lia.
  - rewrite (IH (alter (Clicker.set_id i) l0 h) (i + 1) Hnd) with (k := k).
    + f_equal. lia.
    + intros l' Hl'. apply lookup_alter_is_Some. apply Hin. now right.
    + exact Hk.
Qed.

Lemma page_shape_transfer (p p' : Clicker.ClickerPage) :
  Clicker.markers p' = Clicker.markers p ->
  Clicker.next_loc p' = Clicker.next_loc p ->
  (forall l, Clicker.m_id <$> (Clicker.heap p' !! l)
             = Clicker.m_id <$> (Clicker.heap p !! l)) ->
  (page_wf p -> page_wf p') /\ (ids_dense p -> ids_dense p').
Proof.
  intros Hms Hnext Hids. split.
  - intros [Hnd Hin]. split; rewrite Hms; [exact Hnd|].
    intros l Hl. destruct (Hin l Hl) as [Hsome Hlt]. split; [|now rewrite Hnext].
    apply (fmap_is_Some Clicker.m_id). rewrite Hids. now apply fmap_is_Some.
  - intros Hdense i l Hl. rewrite Hms in Hl. rewrite Hids. now apply Hdense.
Qed.

Lemma refresh_wf_dense (p : Clicker.ClickerPage) :
  page_wf p -> page_wf (Clicker.refresh p) /\ ids_dense (Clicker.refresh p).
Proof.
  intros [Hnd Hin]. split.
  - split; [exact Hnd|]. intros l Hl. destruct (Hin l Hl) as [Hsome Hlt].
    split; [|exact Hlt]. simpl. now apply renumber_is_Some.
  - intros i l Hl. simpl in *.
    rewrite (renumber_ids _ _ 1 Hnd (fun l Hl => proj1 (Hin l Hl)) i l Hl).
    f_equal. lia.
Qed.

Lemma add_marker_wf_dense (p : Clicker.ClickerPage) :
  page_wf p ->
  page_wf (Clicker.add_marker p) /\ ids_dense (Clicker.add_marker p).
Proof.
  intros [Hnd Hin]. unfold Clicker.add_marker.
  match goal with |- context [Clicker.refresh ?q] => set (p1 := q) end.
  assert (Hwf1 : page_wf p1).
  { split; simpl.
    - apply NoDup_app. split; [exact Hnd|]. split; [|apply NoDup_singleton].
      intros l Hl Hl'. apply list_elem_of_singleton in Hl'. subst l.
      destruct (Hin _ Hl) as [_ Hlt]. lia.
    - intros l Hl. apply elem_of_app in Hl as [Hl|Hl].
      + destruct (Hin l Hl) as [Hsome Hlt]. split; [|lia].
        rewrite lookup_insert_ne by lia. exact Hsome.
      + apply list_elem_of_singleton in Hl. subst l.
        rewrite lookup_insert_eq. split; [eauto | lia]. }
  exact (refresh_wf_dense p1 Hwf1).
Qed.

Lemma fill_marker_id (e : Clicker.MarkerEntry) (mm : Clicker.Marker) :
  Clicker.m_id (fst (Clicker.fill_marker e mm)) = Clicker.m_id mm.
Proof.
  destruct e as [x y b iv|]; [|reflexivity].
  destruct x, y, iv; reflexivity.
Qed.

Lemma overwrite_keeps_shape (p : Clicker.ClickerPage) (l : nat)
    (mm mm' : Clicker.Marker) :
  Clicker.heap p !! l = Some mm ->
  Clicker.m_id mm' = Clicker.m_id mm ->
  (page_wf p -> page_wf (Clicker.set_heap (<[l := mm']> (Clicker.heap p)) p))
  /\ (ids_dense p ->
      ids_dense (Clicker.set_heap (<[l := mm']> (Clicker.heap p)) p)).
Proof.
  intros Hl Hid. apply page_shape_transfer; try reflexivity.
  intros l'. simpl. destruct (decide (l = l')) as [<-|Hne].
  - rewrite lookup_insert_eq, Hl. simpl. now rewrite Hid.
  - now rewrite lookup_insert_ne.
Qed.

Lemma alter_keeps_wf (p : Clicker.ClickerPage) (l : nat)
    (f : Clicker.Marker -> Clicker.Marker) :
  page_wf p -> page_wf (Clicker.set_heap (alter f l (Clicker.heap p)) p).
Proof.
  intros [Hnd Hin]. split; [exact Hnd|].
  intros l' Hl'. destruct (Hin l' Hl') as [Hsome Hlt]. split; [|exact Hlt].
  simpl. now apply lookup_alter_is_Some.
Qed.

Lemma load_markers_wf_dense (es : list Clicker.MarkerEntry) :
  forall p : Clicker.ClickerPage,
    page_wf p -> ids_dense p ->
    page_wf (fst (Clicker.load_markers es p))
    /\ ids_dense (fst (Clicker.load_markers es p)).
Proof.
  induction es as [|e es IH]; intros p Hwf Hdense; [simpl; auto|].
  cbn [Clicker.load_markers].
  destruct (add_marker_wf_dense p Hwf) as [Hwf1 Hdense1].
  set (q := Clicker.add_marker p) in *.
  destruct (last (Clicker.markers q)) as [l|]; [|simpl; auto].
  destruct (Clicker.heap q !! l) as [mm|] eqn:Hl; [|simpl; auto].
  pose proof (fill_marker_id e mm) as Hid.
  destruct (Clicker.fill_marker e mm) as [mm' ok]. simpl in Hid.
  destruct (overwrite_keeps_shape q l mm mm' Hl Hid) as [Hw Hd].
  destruct ok; [apply IH; auto | simpl; auto].
Qed.

Lemma apply_op_wf_dense (op : Clicker.PageOp) (p : Clicker.ClickerPage) :
  page_wf p -> ids_dense p ->
  page_wf (Clicker.apply_op op p) /\ ids_dense (Clicker.apply_op op p).
Proof.
  intros Hwf Hdense. destruct op; simpl.
  - unfold Clicker.toggle_start.
    destruct (Clicker.is_running (Clicker.runner p)); [auto|].
    destruct (Clicker.runner_start _ _ _) as [[ok logged] r]. auto.
  - destruct (Clicker.runner_start _ _ _) as [[ok logged] r]. auto.
  - auto.
  - now apply add_marker_wf_dense.
  - apply (refresh_wf_dense (Clicker.set_markers [] p)).
    split; [constructor|]. intros l Hl. now apply elem_of_nil in Hl.
  - unfold Clicker.on_marker_move.
    destruct (Clicker.marker_at (mid - 1) p) as [l|]; simpl; [|auto].
    apply refresh_wf_dense. now apply alter_keeps_wf.
  - unfold Clicker.on_marker_close.
    destruct (py_index (mid - 1) (length (Clicker.markers p))) as [k|];
      simpl; [|auto].
    apply (refresh_wf_dense (Clicker.set_markers (delete k (Clicker.markers p)) p)).
    destruct Hwf as [Hnd Hin]. split; simpl.
    + apply (sublist_NoDup _ _ Hnd (sublist_delete _ k)).
    + intros l Hl. apply Hin. now apply list_elem_of_delete_inv in Hl.
  - unfold Clicker.commit_editor. apply refresh_wf_dense.
    destruct (Clicker.marker_at idx p) as [l|]; [|exact Hwf].
    destruct col; try exact Hwf;
      try (destruct (Clicker.ed_float v); [|exact Hwf]);
      now apply alter_keeps_wf.
  - unfold Clicker.load_config_file.
    match goal with |- context [Clicker.load_markers ?es ?q] =>
      assert (Hq : page_wf q /\ ids_dense q);
      [|destruct (load_markers_wf_dense es q (proj1 Hq) (proj2 Hq)) as [H1 H2];
        destruct (Clicker.load_markers es q) as [p' ok]] end.
    { apply (refresh_wf_dense (Clicker.set_markers [] p)).
      split; [constructor|]. intros l Hl. now apply elem_of_nil in Hl. }
    simpl in H1, H2. destruct ok; simpl; [|auto].
    now apply (refresh_wf_dense p').
  - unfold Clicker.import_state.
    match goal with |- context [Clicker.load_markers ?es ?q] =>
      assert (Hq : page_wf q /\ ids_dense q);
      [|destruct (load_markers_wf_dense es q (proj1 Hq) (proj2 Hq)) as [H1 H2];
        destruct (Clicker.load_markers es q) as [p' ok]] end.
    { match goal with |- page_wf (Clicker.clear_markers ?q0) /\ _ =>
        destruct (refresh_wf_dense (Clicker.set_markers [] q0)) as [A B]
      end.
      - split; [constructor|]. intros l Hl. now apply elem_of_nil in Hl.
      - split; [exact A | exact B]. }
    simpl in H1, H2. destruct ok; simpl; [|auto].
    now apply (refresh_wf_dense p').
Qed.

(** X11.  The marker list stays well formed and densely numbered: on a
    page whose markers are distinct existing objects numbered 1, 2, ... in
    list order, every sequence of page operations (adding, clearing,
    closing, moving and editing markers, toggling the run, loading a
    document or importing a state, even one that raises half-way) leaves
    the markers distinct, existing, and numbered 1, 2, ... in list order. *)
Theorem marker_numbers_stay_dense (ops : list Clicker.PageOp)
    (p : Clicker.ClickerPage) :
  page_wf p -> ids_dense p ->
  page_wf (Clicker.apply_ops ops p) /\ ids_dense (Clicker.apply_ops ops p).
Proof.
  revert p. induction ops as [|op ops IH]; intros p Hwf Hdense; simpl; [auto|].
  destruct (apply_op_wf_dense op p Hwf Hdense) as [H1 H2].
  now apply IH.
Qed.

Lemma marker_numbers_stay_dense_witness :
  page_wf
    (Clicker.apply_ops
       [Clicker.OpAddMarker; Clicker.OpAddMarker; Clicker.OpMarkerClose 1;
        Clicker.OpAddMarker; Clicker.OpLoadConfig bad_marker_doc]
       (App.page_clk App.initial_app))
  /\ ids_dense
       (Clicker.apply_ops
          [Clicker.OpAddMarker; Clicker.OpAddMarker; Clicker.OpMarkerClose 1;
           Clicker.OpAddMarker; Clicker.OpLoadConfig bad_marker_doc]
          (App.page_clk App.initial_app)).
Proof.
  apply (marker_numbers_stay_dense _ (App.page_clk App.initial_app)).
  - split; [constructor|]. intros l Hl. now apply elem_of_nil in Hl.
  - intros i l Hl. discriminate Hl.
Defined.



Lemma omap_fmap {A B C : Type} (f : B -> C) (g : A -> option B) (l : list A) :
  f <$> omap g l = omap (fun x => f <$> g x) l.
Proof.
  induction l as [|x l IH]; [reflexivity|].
  csimpl. destruct (g x); csimpl; now rewrite IH.
Qed.

Lemma omap_ext_in {A B : Type} (f g : A -> option B) (l : list A) :
  (forall x, x ∈ l -> f x = g x) -> omap f l = omap g l.
Proof.
  induction l as [|x l IH]; intros H; [reflexivity|].
  csimpl. rewrite (H x) by left. rewrite IH; [reflexivity|].
  intros y Hy. apply H. now right.
Qed.

Lemma fill_marker_saved (m mm : Clicker.Marker) :
  exists mm',
    Clicker.fill_marker (Clicker.marker_entry m) mm = (mm', true)
    /\ click_fields mm' = click_fields m
    /\ Clicker.m_id mm' = Clicker.m_id mm.
Proof. eexists. split; [reflexivity|]. split; reflexivity. Qed.

(** Loading the saved entries of [ms] on a well-formed page appends one
    marker per entry, with the entry's position, button and interval. *)
Lemma load_markers_saved (ms : list Clicker.Marker) :
  forall p : Clicker.ClickerPage,
    page_wf p ->
    exists p',
      Clicker.load_markers (map Clicker.marker_entry ms) p = (p', true)
      /\ page_wf p'
      /\ omap (fun l => click_fields <$> (Clicker.heap p' !! l))
           (Clicker.markers p')
         = omap (fun l => click_fields <$> (Clicker.heap p !! l))
             (Clicker.markers p)
           ++ (click_fields <$> ms)
      /\ Clicker.var_loops p' = Clicker.var_loops p
      /\ Clicker.var_delay p' = Clicker.var_delay p
      /\ hotkeys (Clicker.core p') = hotkeys (Clicker.core p).
Proof.
  induction ms as [|m ms IH]; intros p Hwf.
  - exists p. simpl. rewrite app_nil_r. auto 10.
  - cbn [map Clicker.load_markers].
    destruct (add_marker_wf_dense p Hwf) as [Hwfq _].
    set (q := Clicker.add_marker p) in *.
    set (n := Clicker.next_loc p).
    set (m0 := {| Clicker.m_id := Z.of_nat (length (Clicker.markers p)) + 1;
                  Clicker.m_x := fst (Clicker.new_marker_pos p);
                  Clicker.m_y := snd (Clicker.new_marker_pos p);
                  Clicker.m_button := "left"; Clicker.m_interval := 2 # 10 |}).
    assert (Hms : Clicker.markers q = Clicker.markers p ++ [n]) by reflexivity.
    assert (Hheap : Clicker.heap q
                    = Clicker.renumber (<[n := m0]> (Clicker.heap p))
                        (Clicker.markers p ++ [n]) 1) by reflexivity.
    rewrite Hms, last_snoc.
    destruct (Clicker.heap q !! n) as [mm|] eqn:Hn.
    2:{ exfalso. destruct Hwfq as [_ Hin].
        destruct (Hin n) as [[x Hx] _]; [|congruence].
        rewrite Hms. apply elem_of_app. right. now apply list_elem_of_singleton. }
    destruct (fill_marker_saved m mm) as (mm' & Hfill & Hfields & Hid).
    rewrite Hfill.
    destruct (overwrite_keeps_shape q n mm mm' Hn Hid) as [Hw _].
    specialize (Hw Hwfq).
    destruct (IH _ Hw) as (p' & Hload & Hwf' & Hlist & Hl & Hd & Hhk).
    exists p'. split; [exact Hload|]. split; [exact Hwf'|].
    split; [|auto].
    rewrite Hlist. cbn [Clicker.markers Clicker.set_heap Clicker.heap].
    rewrite Hms, omap_app, <- app_assoc. f_equal.
    + apply omap_ext_in. intros l Hl'.
      destruct Hwf as [_ Hin]. destruct (Hin l Hl') as [_ Hlt].
      rewrite lookup_insert_ne by (unfold n; lia).
      rewrite Hheap, renumber_click_fields.
      rewrite lookup_insert_ne by (unfold n; lia). reflexivity.
    + simpl. rewrite lookup_insert_eq. simpl. now rewrite Hfields.
Qed.

(** X13.  Exporting the clicker page and importing the exported state,
    into any page, restores the marker list: as many markers, in the same
    order, each with the position, button and interval of the original,
    numbered 1, 2, ...; the loop count and start delay are the exported
    ones, and the exported chords override those of the importing page. *)
Theorem export_then_import_restores_markers (p q : Clicker.ClickerPage) :
  exists q',
    Clicker.import_state (Clicker.export_state p) q = inl q'
    /\ click_fields <$> Clicker.marker_values q'
       = click_fields <$> Clicker.marker_values p
    /\ page_wf q' /\ ids_dense q'
    /\ Clicker.var_loops q' = Clicker.var_loops p
    /\ Clicker.var_delay q' = Clicker.var_delay p
    /\ hotkeys (Clicker.core q')
       = hotkeys (Clicker.core p) ∪ hotkeys (Clicker.core q).
Proof.
  unfold Clicker.import_state, Clicker.export_state.
  cbn [Clicker.doc_hotkeys Clicker.doc_loops Clicker.doc_delay
       Clicker.doc_markers default].
  match goal with |- context [Clicker.load_markers _ ?q0] =>
    set (q3 := q0) end.
  assert (Hwf3 : page_wf q3).
  { split; [constructor|]. intros l Hl. now apply elem_of_nil in Hl. }
  destruct (load_markers_saved (Clicker.marker_values p) q3 Hwf3)
    as (p' & Hload & Hwf' & Hlist & Hl & Hd & Hhk).
  rewrite Hload.
  destruct (refresh_wf_dense p' Hwf') as [Hwf'' Hdense''].
  eexists. split; [reflexivity|].
  split; [|split; [exact Hwf''|split; [exact Hdense''|]]].
  - change (Clicker.markers q3) with (@nil nat) in Hlist. simpl in Hlist.
    rewrite <- Hlist. unfold Clicker.marker_values at 1. rewrite omap_fmap.
    cbn [Clicker.markers Clicker.heap Clicker.notify_hotkeys_changed
         Clicker.refresh Clicker.set_heap].
    apply omap_ext_in. intros l _. apply renumber_click_fields.
  - cbn. rewrite Hl, Hd, Hhk. auto.
Qed.

(** ** Hotkey capture and the dispatcher *)

Lemma mod_token_in_order (k : App.Key) (tok : string) :
  App.mod_token k = Some tok -> tok ∈ App.mod_order.
Proof.
  unfold App.mod_order.
  destruct k; simpl; intros [= <-]; rewrite !elem_of_cons; auto 6.
Qed.

Lemma mods_only_empty : mods_only ∅.
Proof. intros t Ht. now apply not_elem_of_empty in Ht. Qed.

(** X14.  The held-modifier set of a capture session only ever holds the
    four modifier tokens: a key press or release delivered to the capture
    listener keeps it so (a modifier press adds its token, a release removes
    it, a conflict or the end of the session empties it), and a session
    begins with the set empty. *)
Theorem capture_tracks_modifiers (pid : App.PageId) (key : App.Key)
    (app : App.MainApp) :
  mods_only (cap_pressed (App.core_of pid app)) ->
  mods_only (cap_pressed (App.core_of pid (App.on_press pid key app)))
  /\ mods_only (cap_pressed (App.core_of pid (App.on_release pid key app)))
  /\ (forall action app',
        capture_action (App.core_of pid app) = None ->
        App.begin_capture pid action app = inl app' ->
        cap_pressed (App.core_of pid app') = ∅).
Proof.
  intros Hmods. split; [|split].
  - unfold App.on_press.
    destruct (cap_listener (App.core_of pid app)); [|exact Hmods].
    destruct (capture_action (App.core_of pid app)) as [action|]; [|exact Hmods].
    destruct (App.is_modifier key).
    { destruct (App.mod_token key) as [tok|] eqn:Htok; [|exact Hmods].
      rewrite core_of_set_same. simpl. intros t Ht.
      apply elem_of_union in Ht as [Ht|Ht]; [|now apply Hmods].
      apply elem_of_singleton in Ht. subst t.
      now apply (mod_token_in_order key). }
    destruct (App.keystr_of key) as [keystr|]; [|exact Hmods].
    destruct (App.is_hotkey_in_use pid _ (Some action) app).
    + rewrite core_of_set_same. simpl. apply mods_only_empty.
    + rewrite core_of_end_capture_same. simpl. apply mods_only_empty.
  - unfold App.on_release.
    destruct (cap_listener (App.core_of pid app)); [|exact Hmods].
    destruct (App.is_modifier key).
    { destruct (App.mod_token key) as [tok|]; [|exact Hmods].
      rewrite core_of_set_same. simpl. intros t Ht.
      apply elem_of_difference in Ht as [Ht _]. now apply Hmods. }
    destruct key; try exact Hmods.
    rewrite core_of_end_capture_same. simpl. apply mods_only_empty.
  - intros action app' Hidle. unfold App.begin_capture. rewrite Hidle.
    destruct (_ && _); [|discriminate].
    intros [= <-]. now rewrite core_of_set_same.
Qed.

Lemma capture_tracks_modifiers_witness :
  mods_only
    (cap_pressed
       (App.core_of App.PageRec
          (App.on_press App.PageRec App.KCtrlL
             (settle_app (App.begin_capture App.PageRec "toggle_play"
                            App.initial_app))))).
Proof.
  apply (capture_tracks_modifiers App.PageRec App.KCtrlL
           (settle_app (App.begin_capture App.PageRec "toggle_play"
                          App.initial_app))).
  replace (cap_pressed _) with (∅ : gset string) by (vm_compute; reflexivity).
  apply mods_only_empty.
Defined.

(** X15.  The chord of a key press lists the held modifiers in the fixed
    order ctrl, alt, shift, cmd, each once, joined by "+", and ends with
    the key's token: it is that join whether or not a modifier is held. *)
Theorem chord_orders_modifiers (pressed : gset string) (keystr : string) :
  mods_only pressed ->
  App.sorted_mods pressed = filter (fun t => t ∈ pressed) App.mod_order
  /\ App.combo_of pressed keystr
     = String.concat "+" (filter (fun t => t ∈ pressed) App.mod_order ++ [keystr])
  /\ App.sorted_mods pressed `sublist_of` App.mod_order
  /\ (forall t, t ∈ App.sorted_mods pressed <-> t ∈ pressed).
Proof.
  intros Hmods.
  assert (Hs : App.sorted_mods pressed
               = filter (fun t => t ∈ pressed) App.mod_order).
  { unfold App.sorted_mods.
    rewrite (elem_of_nil_inv (filter _ (elements pressed))).
    - apply app_nil_r.
    - intros t Ht. apply list_elem_of_filter in Ht as [Hnot Hin].
      apply elem_of_elements in Hin. apply Hnot. now apply Hmods. }
  split; [exact Hs|]. split; [|split].
  - unfold App.combo_of. rewrite Hs.
    destruct (filter _ App.mod_order); reflexivity.
  - rewrite Hs. apply sublist_filter.
  - intros t. rewrite Hs, list_elem_of_filter. split; [tauto|].
    intros Ht. split; [exact Ht | now apply Hmods].
Qed.

Lemma chord_orders_modifiers_witness :
  App.combo_of ({["<shift>"]} ∪ {["<ctrl>"]}) "a" = "<ctrl>+<shift>+a".
Proof.
  destruct (chord_orders_modifiers ({["<shift>"]} ∪ {["<ctrl>"]}) "a")
    as (_ & H & _).
  - intros t Ht. apply elem_of_union in Ht as [Ht|Ht];
      apply elem_of_singleton in Ht; subst t; unfold App.mod_order;
      rewrite !elem_of_cons; auto.
  - rewrite H. vm_compute. reflexivity.
Defined.








(** X18.  With the four standard actions bound, the dispatch table that
    [refresh_hotkeys] installs holds exactly their chords, and on a
    duplicate it keeps one callback by a fixed precedence: the recorder's
    actions before the clicker's (the clicker's duplicate is skipped), and
    within a page the action listed second ([toggle_play], [add_marker])
    before the first. *)
Theorem dispatcher_keeps_one_callback_per_chord (app : App.MainApp)
    (rec_chord play_chord add_chord start_chord chord : string) :
  hotkeys (App.core_of App.PageRec app) !! "toggle_record" = Some rec_chord ->
  hotkeys (App.core_of App.PageRec app) !! "toggle_play" = Some play_chord ->
  hotkeys (App.core_of App.PageClk app) !! "start_stop" = Some start_chord ->
  hotkeys (App.core_of App.PageClk app) !! "add_marker" = Some add_chord ->
  App.hotkey_mapping (App.refresh_hotkeys app) !! chord
  = if decide (chord = play_chord) then Some App.CbTogglePlay
    else if decide (chord = rec_chord) then Some App.CbToggleRecord
    else if decide (chord = add_chord) then Some App.CbAddMarker
    else if decide (chord = start_chord) then Some App.CbStartStop
    else None.
Proof.
  intros Hr Hp Hs Ha.
  unfold App.refresh_hotkeys, App.get_hotkey_mapping.
  cbn [App.hotkey_mapping].
  rewrite !lookup_total_alt, Hr, Hp, Hs, Ha. simpl.
  rewrite lookup_union, !lookup_insert, !lookup_singleton.
  repeat case_decide; subst; simpl; try congruence; reflexivity.
Qed.

Lemma dispatcher_keeps_one_callback_per_chord_witness :
  App.hotkey_mapping
    (App.refresh_hotkeys
       (App.set_core_of App.PageClk
          (set_hotkeys
             (<["start_stop" := "<f9>"]>
                (hotkeys (App.core_of App.PageClk App.initial_app)))
             (App.core_of App.PageClk App.initial_app))
          App.initial_app))
    !! "<f9>"
  = Some App.CbToggleRecord.
Proof.
  apply (dispatcher_keeps_one_callback_per_chord
           (App.set_core_of App.PageClk
              (set_hotkeys
                 (<["start_stop" := "<f9>"]>
                    (hotkeys (App.core_of App.PageClk App.initial_app)))
                 (App.core_of App.PageClk App.initial_app))
              App.initial_app)
           "<f9>" "<f10>" "<f6>" "<f9>" "<f9>");
    vm_compute; reflexivity.
Defined.

Lemma add_or_fix_result (combo : string) (pool : list string)
    (used : gset string) :
  NoDup pool -> (size used < length pool)%nat ->
  exists c,
    App.add_or_fix combo pool used = (c, {[c]} ∪ used)
    /\ (c ∉ used)
    /\ (combo ∉ used -> c = combo)
    /\ (c = combo \/ (c ∈ pool)).
Proof.
  intros Hnd Hsize. unfold App.add_or_fix.
  destruct (bool_decide (combo ∉ used)) eqn:E.
  - apply bool_decide_eq_true in E. exists combo. auto.
  - apply bool_decide_eq_false in E.
    destruct (pool_has_free pool used Hnd Hsize) as [c Hc]. rewrite Hc.
    apply find_some in Hc as [Hin Hc]. apply bool_decide_eq_true in Hc.
    exists c. repeat split; auto.
    + intros H. contradiction.
    + right. now apply list_elem_of_In.
Qed.

(** The four chords that [ensure_no_duplicates_on_load] writes, in the
    order it computes them. *)
Lemma ensure_no_duplicates_results (app : App.MainApp) :
  let hk_clk := hotkeys (App.core_of App.PageClk app) in
  let hk_rec := hotkeys (App.core_of App.PageRec app) in
  let o1 := default "<f6>" (hk_clk !! "add_marker") in
  let o2 := default "<f7>" (hk_clk !! "start_stop") in
  let o3 := default "<f9>" (hk_rec !! "toggle_record") in
  let o4 := default "<f10>" (hk_rec !! "toggle_play") in
  exists c1 c2 c3 c4,
    hotkeys (App.core_of App.PageClk (App.ensure_no_duplicates_on_load app))
    = <["start_stop" := c2]> (<["add_marker" := c1]> hk_clk)
    /\ hotkeys (App.core_of App.PageRec (App.ensure_no_duplicates_on_load app))
       = <["toggle_play" := c4]> (<["toggle_record" := c3]> hk_rec)
    /\ c1 = o1
    /\ (o2 <> o1 -> c2 = o2)
    /\ (o3 <> o1 -> o3 <> c2 -> c3 = o3)
    /\ (o4 <> o1 -> o4 <> c2 -> o4 <> c3 -> c4 = o4)
    /\ (c2 = o2 \/ c2 ∈ App.pools_clk)
    /\ (c3 = o3 \/ c3 ∈ App.pools_rec)
    /\ (c4 = o4 \/ c4 ∈ App.pools_rec).
Proof.
  intros hk_clk hk_rec o1 o2 o3 o4.
  assert (Hclk : NoDup App.pools_clk) by compute_done.
  assert (Hrec : NoDup App.pools_rec) by compute_done.
  unfold App.ensure_no_duplicates_on_load.
  fold hk_clk. fold hk_rec.
  destruct (add_or_fix_result o1 App.pools_clk ∅ Hclk)
    as (c1 & E1 & F1 & K1 & _).
  { rewrite size_empty. simpl. lia. }
  fold o1. rewrite E1.
  pose proof (size_add_fresh c1 ∅ F1) as S1. rewrite size_empty in S1.
  assert (Ho2 : <["add_marker" := c1]> hk_clk !! "start_stop"
                = hk_clk !! "start_stop")
    by (now rewrite lookup_insert_ne).
  rewrite Ho2. fold o2.
  destruct (add_or_fix_result o2 App.pools_clk ({[c1]} ∪ ∅) Hclk)
    as (c2 & E2 & F2 & K2 & P2).
  { rewrite S1. simpl. lia. }
  rewrite E2.
  pose proof (size_add_fresh c2 _ F2) as S2. rewrite S1 in S2.
  fold o3.
  destruct (add_or_fix_result o3 App.pools_rec ({[c2]} ∪ ({[c1]} ∪ ∅)) Hrec)
    as (c3 & E3 & F3 & K3 & P3).
  { rewrite S2. simpl. lia. }
  rewrite E3.
  pose proof (size_add_fresh c3 _ F3) as S3. rewrite S2 in S3.
  assert (Ho4 : <["toggle_record" := c3]> hk_rec !! "toggle_play"
                = hk_rec !! "toggle_play")
    by (now rewrite lookup_insert_ne).
  rewrite Ho4. fold o4.
  destruct (add_or_fix_result o4 App.pools_rec
              ({[c3]} ∪ ({[c2]} ∪ ({[c1]} ∪ ∅))) Hrec)
    as (c4 & E4 & F4 & K4 & P4).
  { rewrite S3. simpl. lia. }
  rewrite E4.
  assert (C1 : c1 = o1) by (apply K1; apply not_elem_of_empty).
  exists c1, c2, c3, c4.
  split; [reflexivity|]. split; [reflexivity|]. split; [exact C1|].
  split; [|split; [|split; [|auto]]].
  - intros H. apply K2. rewrite not_elem_of_union, not_elem_of_singleton.
    split; [congruence | apply not_elem_of_empty].
  - intros H1 H2. apply K3.
    rewrite !not_elem_of_union, !not_elem_of_singleton.
    repeat split; try congruence. apply not_elem_of_empty.
  - intros H1 H2 H3. apply K4.
    rewrite !not_elem_of_union, !not_elem_of_singleton.
    repeat split; try congruence. apply not_elem_of_empty.
Qed.

(** X19.  [ensure_no_duplicates_on_load] leaves four different chords
    alone: when the four standard actions are present and hold pairwise
    different chords, neither page's table changes. *)
Theorem ensure_keeps_distinct_chords (app : App.MainApp)
    (c1 c2 c3 c4 : string) :
  hotkeys (App.core_of App.PageClk app) !! "add_marker" = Some c1 ->
  hotkeys (App.core_of App.PageClk app) !! "start_stop" = Some c2 ->
  hotkeys (App.core_of App.PageRec app) !! "toggle_record" = Some c3 ->
  hotkeys (App.core_of App.PageRec app) !! "toggle_play" = Some c4 ->
  NoDup [c1; c2; c3; c4] ->
  hotkeys (App.core_of App.PageClk (App.ensure_no_duplicates_on_load app))
  = hotkeys (App.core_of App.PageClk app)
  /\ hotkeys (App.core_of App.PageRec (App.ensure_no_duplicates_on_load app))
     = hotkeys (App.core_of App.PageRec app).
Proof.
  intros H1 H2 H3 H4 Hnd.
  destruct (ensure_no_duplicates_results app)
    as (d1 & d2 & d3 & d4 & Eclk & Erec & D1 & D2 & D3 & D4 & _).
  rewrite H1, H2, H3, H4 in *. simpl in *.
  rewrite !NoDup_cons, !not_elem_of_cons in Hnd.
  destruct Hnd as ((N12 & N13 & N14 & _) & (N23 & N24 & _) & (N34 & _) & _).
  assert (d2 = c2) by (apply D2; congruence).
  assert (d3 = c3) by (apply D3; congruence).
  assert (d4 = c4) by (apply D4; congruence).
  subst. rewrite Eclk, Erec. split.
  - rewrite (insert_id _ "add_marker" c1 H1). now apply insert_id.
  - rewrite (insert_id _ "toggle_record" c3 H3). now apply insert_id.
Qed.

Lemma ensure_keeps_distinct_chords_witness :
  hotkeys (App.core_of App.PageClk
             (App.ensure_no_duplicates_on_load App.initial_app))
  = hotkeys (App.core_of App.PageClk App.initial_app)
  /\ hotkeys (App.core_of App.PageRec
                (App.ensure_no_duplicates_on_load App.initial_app))
     = hotkeys (App.core_of App.PageRec App.initial_app).
Proof.
  apply (ensure_keeps_distinct_chords App.initial_app
           "<f6>" "<f7>" "<f9>" "<f10>");
    try (vm_compute; reflexivity).
  compute_done.
Defined.

(** X20.  The repair at start-up only ever writes a page's own persisted
    chord or a chord of that page's pool of function keys: the first chord
    ([add_marker]) is always kept, and the malformed fall-back chords of
    [add_or_fix] are never assigned. *)
Theorem ensure_picks_from_pool (app : App.MainApp) :
  exists c1 c2 c3 c4,
    hotkeys (App.core_of App.PageClk (App.ensure_no_duplicates_on_load app))
    = <["start_stop" := c2]>
        (<["add_marker" := c1]> (hotkeys (App.core_of App.PageClk app)))
    /\ hotkeys (App.core_of App.PageRec (App.ensure_no_duplicates_on_load app))
       = <["toggle_play" := c4]>
           (<["toggle_record" := c3]> (hotkeys (App.core_of App.PageRec app)))
    /\ c1 = default "<f6>" (hotkeys (App.core_of App.PageClk app) !! "add_marker")
    /\ (c2 = default "<f7>" (hotkeys (App.core_of App.PageClk app) !! "start_stop")
        \/ c2 ∈ App.pools_clk)
    /\ (c3 = default "<f9>"
               (hotkeys (App.core_of App.PageRec app) !! "toggle_record")
        \/ c3 ∈ App.pools_rec)
    /\ (c4 = default "<f10>"
               (hotkeys (App.core_of App.PageRec app) !! "toggle_play")
        \/ c4 ∈ App.pools_rec).
Proof.
  destruct (ensure_no_duplicates_results app)
    as (c1 & c2 & c3 & c4 & Eclk & Erec & D1 & _ & _ & _ & P2 & P3 & P4).
  exists c1, c2, c3, c4. simpl in *. auto 10.
Qed.




